(** * meshlite, util.rs: a shallow embedding of the geometry kernel

    Scalars.  The source computes on [f32].  A finite [f32] is modelled by
    the exact real number it denotes: rounding and overflow are not
    modelled, except in the product [weights[i] * 100.0] of
    [pick_base_plane_norm], which is rounded to the nearest [f32]
    ([fround]) because its truncation to [usize] depends on the rounding.  The special values of IEEE 754 (NaN and the two infinities)
    are modelled, with the IEEE rules for the operations that produce or
    propagate them (division by zero, [0 * inf], [inf - inf], the square
    root of a negative number, [acos] outside [-1, 1], comparisons with
    NaN).  Signed zero is not modelled: a zero divisor is taken as [+0].

    Vectors and points are cgmath's [Vector3<f32>] and [Point3<f32>]; both
    are a record of three scalars here.  Indexing a [Vec] out of range
    panics in Rust; the functions that index return [option], [None]
    standing for the panic. *)

From Stdlib Require Import Reals Lra Lia List ZArith Bool Sorted Permutation.
Import ListNotations.

Open Scope R_scope.

(** ** [f32] *)

Inductive f32 : Type :=
| Fin (r : R)
| Inf (neg : bool)
| NaN.

Definition sign_neg (x : R) : bool := if Rlt_dec x 0 then true else false.

Definition fneg (a : f32) : f32 :=
  match a with
  | Fin x => Fin (- x)
  | Inf s => Inf (negb s)
  | NaN => NaN
  end.

Definition fadd (a b : f32) : f32 :=
  match a, b with
  | Fin x, Fin y => Fin (x + y)
  | Fin _, Inf s => Inf s
  | Inf s, Fin _ => Inf s
  | Inf s, Inf t => if Bool.eqb s t then Inf s else NaN
  | _, _ => NaN
  end.

Definition fsub (a b : f32) : f32 := fadd a (fneg b).

Definition fmul (a b : f32) : f32 :=
  match a, b with
  | Fin x, Fin y => Fin (x * y)
  | Fin x, Inf s => if Req_dec_T x 0 then NaN else Inf (xorb s (sign_neg x))
  | Inf s, Fin x => if Req_dec_T x 0 then NaN else Inf (xorb s (sign_neg x))
  | Inf s, Inf t => Inf (xorb s t)
  | _, _ => NaN
  end.

Definition fdiv (a b : f32) : f32 :=
  match a, b with
  | Fin x, Fin y =>
      if Req_dec_T y 0 then (if Req_dec_T x 0 then NaN else Inf (sign_neg x))
      else Fin (x / y)
  | Fin _, Inf _ => Fin 0
  | Inf s, Fin y => Inf (xorb s (sign_neg y))
  | _, _ => NaN
  end.

Definition fabs (a : f32) : f32 :=
  match a with
  | Fin x => Fin (Rabs x)
  | Inf _ => Inf false
  | NaN => NaN
  end.

Definition fsqrt (a : f32) : f32 :=
  match a with
  | Fin x => if Rlt_dec x 0 then NaN else Fin (sqrt x)
  | Inf false => Inf false
  | _ => NaN
  end.

Definition facos (a : f32) : f32 :=
  match a with
  | Fin x =>
      if Rle_dec (-1) x then (if Rle_dec x 1 then Fin (acos x) else NaN) else NaN
  | _ => NaN
  end.

(** [a < b]; every comparison with NaN is false. *)
Definition flt (a b : f32) : bool :=
  match a, b with
  | Fin x, Fin y => if Rlt_dec x y then true else false
  | Inf true, Fin _ => true
  | Fin _, Inf false => true
  | Inf true, Inf false => true
  | _, _ => false
  end.

Definition fgt (a b : f32) : bool := flt b a.

(** [a == b]. *)
Definition feq (a b : f32) : bool :=
  match a, b with
  | Fin x, Fin y => if Req_dec_T x y then true else false
  | Inf s, Inf t => Bool.eqb s t
  | _, _ => false
  end.

Definition fle (a b : f32) : bool := flt a b || feq a b.

Definition is_nan (a : f32) : bool :=
  match a with NaN => true | _ => false end.

Definition is_infinite (a : f32) : bool :=
  match a with Inf _ => true | _ => false end.

(** [a as usize]: truncation toward zero, saturating at both ends of the
    range of a 64-bit [usize]; NaN becomes 0. *)
Definition usize_max : Z := (2 ^ 64 - 1)%Z.

Definition to_usize (a : f32) : Z :=
  match a with
  | Fin x =>
      if Rlt_dec x 0 then 0%Z
      else if Rle_dec (IZR usize_max) x then usize_max
      else Int_part x
  | Inf false => usize_max
  | _ => 0%Z
  end.

(** Rounding of a real to the nearest [f32], ties to even.  [floorZ r] is
    the greatest integer [<= r] ([up r] is the least integer [> r]). *)
Definition floorZ (r : R) : Z := (up r - 1)%Z.

Definition round_even (r : R) : Z :=
  let f := floorZ r in
  let d := r - IZR f in
  if Rlt_dec d (1 / 2) then f
  else if Rlt_dec (1 / 2) d then (f + 1)%Z
  else if Z.even f then f else (f + 1)%Z.

(** The spacing [2^e] of the [f32] values around a real [x >= 0]: the
    least [e >= -149] with [x < 2^(e + 24)], so that [2^(e+23) <= x] in the
    normal range and [e = -149] for the subnormals; [None] when
    [x >= 2^128]. *)
Fixpoint binade (fuel : nat) (e : Z) (x : R) : option Z :=
  match fuel with
  | O => None
  | S n => if Rlt_dec x (powerRZ 2 (e + 24)) then Some e else binade n (e + 1) x
  end.

Definition round_pos (x : R) : f32 :=
  match binade 254 (-149) x with
  | Some e =>
      let y := IZR (round_even (x / powerRZ 2 e)) * powerRZ 2 e in
      if Rle_dec (powerRZ 2 128) y then Inf false else Fin y
  | None => Inf false
  end.

Definition fround (a : f32) : f32 :=
  match a with
  | Fin x => if Rlt_dec x 0 then fneg (round_pos (- x)) else round_pos x
  | _ => a
  end.

(** ** cgmath's [Vector3] and [Point3] *)

Record vec3 (A : Type) : Type := V3 { vx : A; vy : A; vz : A }.
Arguments V3 {A} _ _ _.
Arguments vx {A} _.
Arguments vy {A} _.
Arguments vz {A} _.

Definition Vector3 : Type := vec3 f32.
Definition Point3 : Type := vec3 f32.

(** [a + b], [a - b] (also [Point3 - Point3] and [Point3 + Vector3]). *)
Definition vadd (a b : Vector3) : Vector3 :=
  V3 (fadd (vx a) (vx b)) (fadd (vy a) (vy b)) (fadd (vz a) (vz b)).

Definition vsub (a b : Vector3) : Vector3 :=
  V3 (fsub (vx a) (vx b)) (fsub (vy a) (vy b)) (fsub (vz a) (vz b)).

Definition vneg (a : Vector3) : Vector3 :=
  V3 (fneg (vx a)) (fneg (vy a)) (fneg (vz a)).

(** [v * s] *)
Definition vmuls (v : Vector3) (s : f32) : Vector3 :=
  V3 (fmul (vx v) s) (fmul (vy v) s) (fmul (vz v) s).

(** [s * v] *)
Definition smulv (s : f32) (v : Vector3) : Vector3 :=
  V3 (fmul s (vx v)) (fmul s (vy v)) (fmul s (vz v)).

(** [dot]: the element-wise product, summed [x + y + z]. *)
Definition dot (a b : Vector3) : f32 :=
  fadd (fadd (fmul (vx a) (vx b)) (fmul (vy a) (vy b))) (fmul (vz a) (vz b)).

Definition cross (a b : Vector3) : Vector3 :=
  V3 (fsub (fmul (vy a) (vz b)) (fmul (vz a) (vy b)))
     (fsub (fmul (vz a) (vx b)) (fmul (vx a) (vz b)))
     (fsub (fmul (vx a) (vy b)) (fmul (vy a) (vx b))).

Definition magnitude2 (v : Vector3) : f32 := dot v v.

Definition magnitude (v : Vector3) : f32 := fsqrt (magnitude2 v).

(** [normalize] is [normalize_to(1)], that is [v * (1 / |v|)]. *)
Definition normalize (v : Vector3) : Vector3 :=
  vmuls v (fdiv (Fin 1) (magnitude v)).

(** [project_on(self, other) = other * (self.dot(other) / other.magnitude2())] *)
Definition project_on (v other : Vector3) : Vector3 :=
  vmuls other (fdiv (dot v other) (magnitude2 other)).

(** ** The kernel, util.rs *)

Definition norm (p1 p2 p3 : Point3) : Vector3 :=
  let side1 := vsub p2 p1 in
  let side2 := vsub p3 p1 in
  let perp := cross side1 side2 in
  normalize perp.

Definition almost_eq (v1 v2 : Vector3) : bool :=
  fle (fabs (fsub (vx v1) (vx v2))) (Fin (1 / 100)) &&
  fle (fabs (fsub (vy v1) (vy v2))) (Fin (1 / 100)) &&
  fle (fabs (fsub (vz v1) (vz v2))) (Fin (1 / 100)).


(** [Deg::from(Rad(r)).0 = r * (180 / PI)]. *)
Definition deg_of_rad (r : f32) : f32 := fmul r (Fin (180 / PI)).

Definition angle360 (a b direct : Vector3) : f32 :=
  let angle := facos (dot a b) in
  let c := cross a b in
  if flt (dot c direct) (Fin 0) then fadd (Fin 180) (deg_of_rad angle)
  else deg_of_rad angle.

Inductive PointSide : Type := Front | Back | Coincident.

Definition point_side_on_plane (pt pt_on_plane : Point3) (nrm : Vector3) : PointSide :=
  let line := vsub pt pt_on_plane in
  let d := dot line nrm in
  if fgt d (Fin 0) then Front
  else if flt d (Fin 0) then Back
  else Coincident.

Inductive SegmentPlaneIntersect : Type :=
| NoIntersection
| Parallel
| LiesIn
| Intersection (p : Point3).

Definition SMALL_NUM : f32 := Fin (1 / 100000000).

Definition intersect_of_segment_and_plane (p0 p1 pt_on_plane : Point3) (nrm : Vector3)
  : SegmentPlaneIntersect :=
  let u := vsub p1 p0 in
  let w := vsub p0 pt_on_plane in
  let d := dot nrm u in
  let n := fneg (dot nrm w) in
  if flt (fabs d) SMALL_NUM then
    (if feq n (Fin 0) then LiesIn else Parallel)
  else
    let s_i := fdiv n d in
    if flt s_i (Fin 0) || fgt s_i (Fin 1) || is_nan s_i || is_infinite s_i
    then NoIntersection
    else Intersection (vadd p0 (smulv s_i u)).

(** [quad[0]], [quad[1]], [quad[2]] panic when [quad] is too short. *)
Definition is_segment_and_quad_intersect (p0 p1 : Point3) (quad : list Point3) : option bool :=
  match nth_error quad 0, nth_error quad 1, nth_error quad 2 with
  | Some s1, Some s2, Some s3 =>
      let r1 := p0 in
      let r2 := p1 in
      let ds21 := vsub s2 s1 in
      let ds31 := vsub s3 s1 in
      let n := cross ds21 ds31 in
      let dr := vsub r1 r2 in
      let ndotdr := dot n dr in
      if flt (fabs ndotdr) SMALL_NUM then Some false else
      let t := fdiv (fneg (dot n (vsub r1 s1))) ndotdr in
      let m := vadd r1 (vmuls dr t) in
      let dms1 := vsub m s1 in
      let u := dot dms1 ds21 in
      let v := dot dms1 ds31 in
      Some (fle (Fin 0) u && fle u (dot ds21 ds21) && fle (Fin 0) v && fle v (dot ds31 ds31))
  | _, _, _ => None
  end.

(** One [for i in 0..edges.len()] loop of [is_two_quads_intersect]: the
    edge [edges[i] -> edges[(i + 1) % edges.len()]] against [quad], with
    the early [return true]. *)
Fixpoint edge_loop (edges quad : list Point3) (idx : list nat) : option bool :=
  match idx with
  | [] => Some false
  | i :: rest =>
      match nth_error edges i, nth_error edges ((i + 1) mod length edges) with
      | Some a, Some b =>
          match is_segment_and_quad_intersect a b quad with
          | Some true => Some true
          | Some false => edge_loop edges quad rest
          | None => None
          end
      | _, _ => None
      end
  end.

Definition is_two_quads_intersect (first_quad second_quad : list Point3) : option bool :=
  match edge_loop second_quad first_quad (seq 0 (length second_quad)) with
  | Some false => edge_loop first_quad second_quad (seq 0 (length first_quad))
  | r => r
  end.

(** cgmath's [MetricSpace] for [Point3]: [distance(a, b)] is
    [(b - a).magnitude2().sqrt()]. *)
Definition distance (a b : Point3) : f32 := fsqrt (magnitude2 (vsub b a)).

Definition is_point_on_segment (point seg_begin seg_end : Point3) : bool :=
  let v := vsub seg_end seg_begin in
  let w := vsub point seg_begin in
  let w_dot_v := dot w v in
  if fle w_dot_v (Fin 0) then false else
  let v_dot_v := dot v v in
  if fle v_dot_v w_dot_v then false else
  let t := vadd seg_begin (vmuls v (fdiv w_dot_v v_dot_v)) in
  let dist := distance t point in
  fle dist (Fin (1 / 100000)).

Definition is_valid_norm (n : Vector3) : bool :=
  negb (is_nan (vx n)) && negb (is_nan (vy n)) && negb (is_nan (vz n)).

Notation "'let*' x ':=' e 'in' k" :=
  (match e with Some x => k | None => None end)
  (at level 200, x ident, e at level 100, k at level 200).

Definition C0966 : f32 := Fin (966 / 1000).

(** [weighted_indices.sort_by(|a, b| b.1.cmp(&a.1))]: [sort_by] is a
    stable sort; this is the stable insertion sort on the same order (keys
    descending, equal keys in their original order). *)
Fixpoint insert_desc (e : nat * Z) (l : list (nat * Z)) : list (nat * Z) :=
  match l with
  | [] => [e]
  | h :: t => if (snd h <? snd e)%Z then e :: h :: t else h :: insert_desc e t
  end.

Definition sort_desc (l : list (nat * Z)) : list (nat * Z) :=
  fold_left (fun acc e => insert_desc e acc) l [].

Definition weighted_indices_of (weights : list f32) : list (nat * Z) :=
  map (fun iw => (fst iw, to_usize (fround (fmul (snd iw) (Fin 100)))))
      (combine (seq 0 (length weights)) weights).

Definition pick_base_plane_norm (directs : list Vector3) (positions : list Point3)
  (weights : list f32) : option (option Vector3) :=
  if (length directs <=? 1)%nat then Some None
  else if (length directs <=? 2)%nat then
    let* d0 := nth_error directs 0 in
    let* d1 := nth_error directs 1 in
    if flt (fabs (dot d0 d1)) C0966 then Some (Some (normalize (cross d0 d1)))
    else Some None
  else if (length directs <=? 3)%nat then
    let* p0 := nth_error positions 0 in
    let* p1 := nth_error positions 1 in
    let* p2 := nth_error positions 2 in
    let n := norm p0 p1 p2 in
    if is_valid_norm n then Some (Some (normalize n)) else
    let* d0 := nth_error directs 0 in
    let* d1 := nth_error directs 1 in
    if flt (fabs (dot d0 d1)) C0966 then Some (Some (normalize (cross d0 d1))) else
    let* d2 := nth_error directs 2 in
    if flt (fabs (dot d1 d2)) C0966 then Some (Some (normalize (cross d1 d2))) else
    if flt (fabs (dot d2 d0)) C0966 then Some (Some (normalize (cross d2 d0)))
    else Some None
  else
    let weighted_indices := sort_desc (weighted_indices_of weights) in
    let* e0 := nth_error weighted_indices 0 in
    let* e1 := nth_error weighted_indices 1 in
    let* e2 := nth_error weighted_indices 2 in
    let i0 := fst e0 in
    let i1 := fst e1 in
    let i2 := fst e2 in
    let* p0 := nth_error positions i0 in
    let* p1 := nth_error positions i1 in
    let* p2 := nth_error positions i2 in
    let n := norm p0 p1 p2 in
    if is_valid_norm n then Some (Some (normalize n)) else
    let* d0 := nth_error directs i0 in
    let* d1 := nth_error directs i1 in
    if flt (fabs (dot d0 d1)) C0966 then Some (Some (normalize (cross d0 d1))) else
    let* d2 := nth_error directs i2 in
    if flt (fabs (dot d1 d2)) C0966 then Some (Some (normalize (cross d1 d2))) else
    if flt (fabs (dot d2 d0)) C0966 then Some (Some (normalize (cross d2 d0)))
    else Some None.

Definition WORLD_Y_AXIS : Vector3 := V3 (Fin 0) (Fin 1) (Fin 0).
Definition WORLD_X_AXIS : Vector3 := V3 (Fin 1) (Fin 0) (Fin 0).
Definition C0707 : f32 := Fin (707 / 1000).

Definition world_perp (direct : Vector3) : Vector3 :=
  if fgt (fabs (dot direct WORLD_X_AXIS)) C0707
  then cross direct WORLD_Y_AXIS
  else cross direct WORLD_X_AXIS.

Definition calculate_deform_position (vert_position : Point3) (vert_ray deform_norm : Vector3)
  (deform_factor : f32) : Point3 :=
  let revised_norm :=
    if flt (dot vert_ray deform_norm) (Fin 0) then vneg deform_norm else deform_norm in
  let proj := project_on vert_ray revised_norm in
  let scaled_proj := vmuls proj deform_factor in
  vadd vert_position (vsub scaled_proj proj).

Definition make_quad (position : Point3) (direct : Vector3) (radius : f32)
  (base_norm : Vector3) : list Point3 :=
  let direct_normalized := normalize direct in
  let base_norm_normalized := normalize base_norm in
  let d := dot direct_normalized base_norm in
  let oriented_base_norm :=
    if fgt d (Fin 0) then base_norm_normalized else vneg base_norm_normalized in
  let u :=
    if fgt (fabs (dot direct_normalized oriented_base_norm)) C0707
    then cross direct_normalized (world_perp oriented_base_norm)
    else cross direct_normalized oriented_base_norm in
  let v := cross u direct in
  let u := vmuls (normalize u) radius in
  let v := vmuls (normalize v) radius in
  let origin := vadd position (vmuls direct radius) in
  [vsub (vsub origin u) v; vsub (vadd origin u) v;
   vadd (vadd origin u) v; vadd (vsub origin u) v].

(** The [for i in 1..vertices.len()] loop of
    [pick_most_not_obvious_vertex]: [i] is the index of the head of [rest]. *)
Fixpoint pick_loop (pick_max : bool) (i : nat) (rest : list Point3)
  (choosen_index : nat) (choosen_x : f32) : nat :=
  match rest with
  | [] => choosen_index
  | p :: rest' =>
      let x := vx p in
      if pick_max then
        if fgt x choosen_x then pick_loop pick_max (S i) rest' i x
        else pick_loop pick_max (S i) rest' choosen_index choosen_x
      else
        if flt x choosen_x then pick_loop pick_max (S i) rest' i x
        else pick_loop pick_max (S i) rest' choosen_index choosen_x
  end.

Definition pick_most_not_obvious_vertex (vertices : list Point3) : nat :=
  if (length vertices <=? 1)%nat then 0%nat else
  match vertices with
  | [] => 0%nat
  | v0 :: rest =>
      let choosen_x := vx v0 in
      let pick_max := flt choosen_x (Fin 0) in
      pick_loop pick_max 1 rest 0 choosen_x
  end.

(** ** Finite vectors

    [lift v] is the [Vector3] whose three components are the finite values
    of the real vector [v]; on finite values every operation above computes
    the exact real operation, which the lemmas below record. *)

Definition RV : Type := vec3 R.

Definition lift (v : RV) : Vector3 := V3 (Fin (vx v)) (Fin (vy v)) (Fin (vz v)).

Definition radd (a b : RV) : RV := V3 (vx a + vx b) (vy a + vy b) (vz a + vz b).
Definition rsub (a b : RV) : RV := V3 (vx a - vx b) (vy a - vy b) (vz a - vz b).
Definition rneg (a : RV) : RV := V3 (- vx a) (- vy a) (- vz a).
Definition rscale (v : RV) (s : R) : RV := V3 (vx v * s) (vy v * s) (vz v * s).
Definition rsmul (s : R) (v : RV) : RV := V3 (s * vx v) (s * vy v) (s * vz v).
Definition rdot (a b : RV) : R := vx a * vx b + vy a * vy b + vz a * vz b.
Definition rcross (a b : RV) : RV :=
  V3 (vy a * vz b - vz a * vy b) (vz a * vx b - vx a * vz b) (vx a * vy b - vy a * vx b).
Definition rnormalize (v : RV) : RV := rscale v (1 / sqrt (rdot v v)).

Lemma vadd_lift (a b : RV) : vadd (lift a) (lift b) = lift (radd a b).
Proof. reflexivity. Qed.

Lemma vsub_lift (a b : RV) : vsub (lift a) (lift b) = lift (rsub a b).
Proof. reflexivity. Qed.

Lemma vneg_lift (a : RV) : vneg (lift a) = lift (rneg a).
Proof. reflexivity. Qed.

Lemma vmuls_lift (v : RV) (s : R) : vmuls (lift v) (Fin s) = lift (rscale v s).
Proof. reflexivity. Qed.

Lemma smulv_lift (s : R) (v : RV) : smulv (Fin s) (lift v) = lift (rsmul s v).
Proof. reflexivity. Qed.

Lemma dot_lift (a b : RV) : dot (lift a) (lift b) = Fin (rdot a b).
Proof. reflexivity. Qed.

Lemma cross_lift (a b : RV) : cross (lift a) (lift b) = lift (rcross a b).
Proof. reflexivity. Qed.

Lemma fabs_Fin (x : R) : fabs (Fin x) = Fin (Rabs x).
Proof. reflexivity. Qed.

Lemma flt_Fin (x y : R) : flt (Fin x) (Fin y) = true <-> x < y.
Proof. cbn. destruct (Rlt_dec x y); split; intros; auto; discriminate. Qed.

Lemma flt_Fin_false (x y : R) : flt (Fin x) (Fin y) = false <-> y <= x.
Proof. cbn. destruct (Rlt_dec x y); split; intros; try discriminate; lra. Qed.

Lemma lift_inj (a b : RV) : lift a = lift b -> a = b.
Proof.
  destruct a as [ax ay az], b as [bx by0 bz]; unfold lift; cbn.
  intros H; injection H; intros; subst; reflexivity.
Qed.

Lemma rdot_self_nonneg (v : RV) : 0 <= rdot v v.
Proof. unfold rdot. nra. Qed.

(** Normalizing a nonzero finite vector is finite. *)
Lemma normalize_lift (v : RV) :
  0 < rdot v v -> normalize (lift v) = lift (rnormalize v).
Proof.
  intros Hv. unfold normalize, magnitude, magnitude2, rnormalize.
  rewrite dot_lift. cbn [fsqrt].
  destruct (Rlt_dec (rdot v v) 0) as [Hn|_]; [lra|].
  cbn [fdiv].
  destruct (Req_dec_T (sqrt (rdot v v)) 0) as [Hz|_].
  - pose proof (sqrt_lt_R0 _ Hv). lra.
  - apply vmuls_lift.
Qed.

(** Normalizing the zero vector gives NaN in every component: [0 * (1 / 0)]. *)
Lemma normalize_lift_zero (v : RV) :
  rdot v v = 0 -> normalize (lift v) = V3 NaN NaN NaN.
Proof.
  intros Hv.
  assert (Hx : vx v = 0) by (unfold rdot in Hv; nra).
  assert (Hy : vy v = 0) by (unfold rdot in Hv; nra).
  assert (Hz : vz v = 0) by (unfold rdot in Hv; nra).
  unfold normalize, magnitude, magnitude2.
  rewrite dot_lift, Hv. cbn [fsqrt].
  destruct (Rlt_dec 0 0) as [Hn|_]; [lra|].
  rewrite sqrt_0. cbn [fdiv].
  destruct (Req_dec_T 0 0) as [_|Hn]; [|congruence].
  destruct (Req_dec_T 1 0) as [Hn|_]; [lra|].
  unfold lift, vmuls; cbn. rewrite Hx, Hy, Hz.
  destruct (Req_dec_T 0 0) as [_|Hn]; [reflexivity|congruence].
Qed.

(** Evaluation of the scalar and vector operations. *)
Ltac fsimpl :=
  cbv beta iota zeta delta [fneg fadd fsub fmul fdiv fabs fsqrt facos flt fgt feq fle
    is_nan is_infinite vadd vsub vneg vmuls smulv dot cross magnitude2 magnitude
    normalize project_on vx vy vz lift negb andb orb xorb Bool.eqb].

(** Case analysis on the real comparisons of a concrete computation. *)
Ltac rdec :=
  repeat (fsimpl; unfold Rabs in *;
    match goal with
    | |- context [Rcase_abs ?a] =>
        destruct (Rcase_abs a); try (exfalso; lra)
    | H : context [Rcase_abs ?a] |- _ =>
        destruct (Rcase_abs a); try (exfalso; lra)
    | |- context [sqrt ?e] =>
        lazymatch e with
        | 0 => rewrite sqrt_0
        | 1 => rewrite sqrt_1
        | _ => first [replace e with 0 by ring | replace e with 1 by ring]
        end
    | |- context [Rlt_dec ?a ?b] =>
        destruct (Rlt_dec a b); try (exfalso; lra)
    | |- context [Rle_dec ?a ?b] =>
        destruct (Rle_dec a b); try (exfalso; lra)
    | |- context [Req_dec_T ?a ?b] =>
        destruct (Req_dec_T a b); try (exfalso; lra)
    end).

(** Equality of two finite vectors, component by component. *)
Ltac veq := unfold lift; fsimpl; f_equal; apply f_equal; first [ring | field | lra].

(** ** Specification-side predicates *)

(** A scalar that lies outside [0, 1] or is not finite (NaN or infinite). *)
Definition out_or_nonfinite (s : f32) : Prop :=
  match s with
  | Fin r => r < 0 \/ 1 < r
  | _ => True
  end.

Lemma feq_zero_true (n : f32) : n = Fin 0 -> feq n (Fin 0) = true.
Proof.
  intros ->. cbn. destruct (Req_dec_T 0 0); [reflexivity|congruence].
Qed.

Lemma feq_zero_false (n : f32) : n <> Fin 0 -> feq n (Fin 0) = false.
Proof.
  destruct n as [x|b|]; cbn; intros H; try reflexivity.
  destruct (Req_dec_T x 0) as [->|]; [congruence|reflexivity].
Qed.

(** ** Quads *)

(** The unit square in the plane [z = 0], wound counter-clockwise. *)
Definition unit_square : list Point3 :=
  map lift [V3 0 0 0; V3 1 0 0; V3 1 1 0; V3 0 1 0].

(** A two-point list: the segment through the centre of [unit_square],
    along the z axis. *)
Definition probe_segment : list Point3 :=
  map lift [V3 (1 / 2) (1 / 2) (-1); V3 (1 / 2) (1 / 2) 1].

(** The outcome of testing edge [i] of [edges] against [quad] (the panic
    case, which cannot happen for the lists the lemmas use, counts as
    [false]). *)
Definition edge_hit (edges quad : list Point3) (i : nat) : bool :=
  match nth_error edges i, nth_error edges ((i + 1) mod length edges) with
  | Some a, Some b =>
      match is_segment_and_quad_intersect a b quad with
      | Some h => h
      | None => false
      end
  | _, _ => false
  end.

Lemma seg_quad_no_panic (p0 p1 : Point3) (quad : list Point3) :
  (3 <= length quad)%nat ->
  exists h, is_segment_and_quad_intersect p0 p1 quad = Some h.
Proof.
  intros Hl. unfold is_segment_and_quad_intersect.
  destruct quad as [|s1 [|s2 [|s3 rest]]]; cbn in Hl; try lia.
  cbn. destruct (flt _ SMALL_NUM); eexists; reflexivity.
Qed.

Lemma edge_loop_existsb (edges quad : list Point3) (idx : list nat) :
  (3 <= length quad)%nat ->
  (forall i, In i idx -> (i < length edges)%nat) ->
  edge_loop edges quad idx = Some (existsb (edge_hit edges quad) idx).
Proof.
  intros Hq. induction idx as [|i rest IH]; intros Hidx; [reflexivity|].
  cbn [edge_loop existsb].
  assert (Hi : (i < length edges)%nat) by (apply Hidx; left; reflexivity).
  assert (Hj : ((i + 1) mod length edges < length edges)%nat)
    by (apply Nat.mod_upper_bound; lia).
  destruct (nth_error edges i) as [a|] eqn:Ea;
    [|apply nth_error_None in Ea; lia].
  destruct (nth_error edges ((i + 1) mod length edges)) as [b|] eqn:Eb;
    [|apply nth_error_None in Eb; lia].
  unfold edge_hit. rewrite Ea, Eb.
  destruct (seg_quad_no_panic a b quad Hq) as [h Hh]. rewrite Hh.
  destruct h; [reflexivity|].
  apply IH. intros j Hj'. apply Hidx. right. exact Hj'.
Qed.

Lemma is_two_quads_intersect_orb (A B : list Point3) :
  (3 <= length A)%nat -> (3 <= length B)%nat ->
  is_two_quads_intersect A B =
  Some (existsb (edge_hit B A) (seq 0 (length B)) || existsb (edge_hit A B) (seq 0 (length A))).
Proof.
  intros HA HB. unfold is_two_quads_intersect.
  rewrite (edge_loop_existsb B A (seq 0 (length B)) HA)
    by (intros i Hi; apply in_seq in Hi; lia).
  destruct (existsb (edge_hit B A) (seq 0 (length B))); [reflexivity|].
  rewrite (edge_loop_existsb A B (seq 0 (length A)) HB)
    by (intros i Hi; apply in_seq in Hi; lia).
  reflexivity.
Qed.

(** The normal [(q1 - q0) × (q2 - q0)] of a plane through three points. *)
Definition plane_normal (q0 q1 q2 : RV) : RV := rcross (rsub q1 q0) (rsub q2 q0).

(** A segment orthogonal to the normal of [quad]'s first three points is
    rejected by the parallel test. *)
Lemma seg_quad_parallel (a b q0 q1 q2 : RV) (rest : list Point3) :
  rdot (plane_normal q0 q1 q2) (rsub a b) = 0 ->
  is_segment_and_quad_intersect (lift a) (lift b) (lift q0 :: lift q1 :: lift q2 :: rest)
  = Some false.
Proof.
  intros H. unfold is_segment_and_quad_intersect. cbn [nth_error].
  rewrite !vsub_lift, cross_lift, dot_lift. unfold plane_normal in H. rewrite H.
  rewrite fabs_Fin, Rabs_R0. unfold SMALL_NUM. cbn [flt].
  destruct (Rlt_dec 0 (1 / 100000000)); [reflexivity|lra].
Qed.

Lemma plane_normal_dot_sub (q0 q1 q2 a b : RV) :
  rdot (plane_normal q0 q1 q2) (rsub a b) =
  rdot (plane_normal q0 q1 q2) (rsub a q0) - rdot (plane_normal q0 q1 q2) (rsub b q0).
Proof. unfold plane_normal, rdot, rcross, rsub; cbn. ring. Qed.

Lemma plane_normal_q0 (q0 q1 q2 : RV) : rdot (plane_normal q0 q1 q2) (rsub q0 q0) = 0.
Proof. unfold plane_normal, rdot, rcross, rsub; cbn. ring. Qed.

Lemma plane_normal_q1 (q0 q1 q2 : RV) : rdot (plane_normal q0 q1 q2) (rsub q1 q0) = 0.
Proof. unfold plane_normal, rdot, rcross, rsub; cbn. ring. Qed.

Lemma plane_normal_q2 (q0 q1 q2 : RV) : rdot (plane_normal q0 q1 q2) (rsub q2 q0) = 0.
Proof. unfold plane_normal, rdot, rcross, rsub; cbn. ring. Qed.

(** ** Scalar and vector facts on finite values *)


Lemma fdiv_Fin (x y : R) : y <> 0 -> fdiv (Fin x) (Fin y) = Fin (x / y).
Proof. intros H. cbn. destruct (Req_dec_T y 0); [contradiction|reflexivity]. Qed.

Lemma fle_Fin (x y : R) : fle (Fin x) (Fin y) = true <-> x <= y.
Proof.
  unfold fle; cbn. destruct (Rlt_dec x y), (Req_dec_T x y); cbn; split; intros;
    try reflexivity; try discriminate; lra.
Qed.


Lemma rdot_self_pos (v : RV) : v <> V3 0 0 0 -> 0 < rdot v v.
Proof.
  intros Hv. destruct v as [x y z]. unfold rdot; cbn.
  destruct (Req_dec_T x 0), (Req_dec_T y 0), (Req_dec_T z 0); subst;
    try (exfalso; apply Hv; reflexivity); nra.
Qed.


(** Lagrange's identity. *)
Lemma rcross_norm2 (a b : RV) :
  rdot (rcross a b) (rcross a b) = rdot a a * rdot b b - rdot a b * rdot a b.
Proof. unfold rdot, rcross; cbn. ring. Qed.



(** ** Triangles *)


(** ** Deformation *)

(** The projection of [v] onto [other], [other * (v·other / |other|^2)]. *)
Definition rproject (v other : RV) : RV := rscale other (rdot v other / rdot other other).

(** [n], flipped when it opposes [ray]. *)
Definition rface (ray n : RV) : RV := if Rlt_dec (rdot ray n) 0 then rneg n else n.

(** ** Base-plane normal *)

(** The 3-sample policy as the specification words it: the normalized
    triangle normal of the three positions if it is valid, otherwise the
    first normalized cross product of the pairs of directions 0-1, 1-2, 2-0
    with [|dot| < 0.966], otherwise none. *)
Definition policy3 (d0 d1 d2 p0 p1 p2 : Vector3) : option Vector3 :=
  let n := norm p0 p1 p2 in
  if is_valid_norm n then Some (normalize n)
  else if flt (fabs (dot d0 d1)) C0966 then Some (normalize (cross d0 d1))
  else if flt (fabs (dot d1 d2)) C0966 then Some (normalize (cross d1 d2))
  else if flt (fabs (dot d2 d0)) C0966 then Some (normalize (cross d2 d0))
  else None.

Definition zero3 : Vector3 := V3 (Fin 0) (Fin 0) (Fin 0).

(** The sub-list of the samples [i0], [i1], [i2]. *)
Definition pick3 {A : Type} (l : list A) (d : A) (i0 i1 i2 : nat) : list A :=
  [nth i0 l d; nth i1 l d; nth i2 l d].

Ltac split_ifs :=
  repeat match goal with |- context [if ?b then _ else _] => destruct b end;
  reflexivity.

(** Keys in descending order. *)
Definition key_ge (e1 e2 : nat * Z) : Prop := (snd e2 <= snd e1)%Z.

Lemma insert_desc_perm (e : nat * Z) (l : list (nat * Z)) :
  Permutation (insert_desc e l) (e :: l).
Proof.
  induction l as [|h t IH]; cbn; [reflexivity|].
  destruct (snd h <? snd e)%Z; [reflexivity|].
  eapply perm_trans; [apply perm_skip, IH|]. apply perm_swap.
Qed.

Lemma fold_insert_perm (l acc : list (nat * Z)) :
  Permutation (fold_left (fun acc e => insert_desc e acc) l acc) (l ++ acc).
Proof.
  revert acc. induction l as [|x l IH]; intros acc; cbn; [reflexivity|].
  eapply perm_trans; [apply IH|].
  eapply perm_trans; [apply Permutation_app_head, insert_desc_perm|].
  apply Permutation_sym, Permutation_middle.
Qed.

Lemma sort_desc_perm (l : list (nat * Z)) : Permutation (sort_desc l) l.
Proof.
  unfold sort_desc. rewrite <- (app_nil_r l) at 2. apply fold_insert_perm.
Qed.

Lemma insert_desc_hdrel (h e : nat * Z) (l : list (nat * Z)) :
  HdRel key_ge h l -> (snd e <= snd h)%Z -> HdRel key_ge h (insert_desc e l).
Proof.
  intros Hh He. destruct l as [|x t]; cbn.
  - constructor. exact He.
  - destruct (snd x <? snd e)%Z; constructor; [exact He|].
    inversion Hh; assumption.
Qed.

Lemma insert_desc_sorted (e : nat * Z) (l : list (nat * Z)) :
  Sorted key_ge l -> Sorted key_ge (insert_desc e l).
Proof.
  induction l as [|h t IH]; intros Hs; cbn.
  - repeat constructor.
  - destruct (snd h <? snd e)%Z eqn:E.
    + constructor; [exact Hs|]. constructor. unfold key_ge.
      apply Z.ltb_lt in E. lia.
    + inversion Hs; subst. constructor; [apply IH; assumption|].
      apply insert_desc_hdrel; [assumption|]. apply Z.ltb_ge in E. lia.
Qed.

Lemma sort_desc_sorted (l : list (nat * Z)) : Sorted key_ge (sort_desc l).
Proof.
  unfold sort_desc. assert (H : Sorted key_ge []) by constructor. revert H.
  generalize (@nil (nat * Z)). induction l as [|x l IH]; intros acc Hacc; cbn.
  - exact Hacc.
  - apply IH. apply insert_desc_sorted. exact Hacc.
Qed.

Lemma weighted_indices_in (ws : list f32) (e : nat * Z) :
  In e (weighted_indices_of ws) -> (fst e < length ws)%nat.
Proof.
  unfold weighted_indices_of. intros H.
  apply in_map_iff in H as [[i w] [<- Hin]]. cbn.
  apply in_combine_l, in_seq in Hin. lia.
Qed.

Lemma weighted_indices_length (ws : list f32) :
  length (weighted_indices_of ws) = length ws.
Proof.
  unfold weighted_indices_of. rewrite length_map, length_combine, length_seq.
  apply Nat.min_id.
Qed.

(** ** Quad construction *)

(** [world_perp] on a finite vector. *)
Definition rworld_perp (w : RV) : RV :=
  if Rlt_dec (707 / 1000) (Rabs (rdot w (V3 1 0 0)))
  then rcross w (V3 0 1 0) else rcross w (V3 1 0 0).

Lemma world_perp_lift (w : RV) : world_perp (lift w) = lift (rworld_perp w).
Proof.
  unfold world_perp, rworld_perp.
  change WORLD_X_AXIS with (lift (V3 1 0 0)).
  change WORLD_Y_AXIS with (lift (V3 0 1 0)).
  rewrite dot_lift, fabs_Fin. cbv beta iota delta [fgt flt C0707].
  destruct (Rlt_dec (707 / 1000) (Rabs (rdot w (V3 1 0 0)))); apply cross_lift.
Qed.

Lemma rworld_perp_ortho (w : RV) : rdot w (rworld_perp w) = 0.
Proof.
  unfold rworld_perp. destruct (Rlt_dec _ _); unfold rdot, rcross; cbn; ring.
Qed.

Lemma rworld_perp_pos (w : RV) : rdot w w = 1 -> 0 < rdot (rworld_perp w) (rworld_perp w).
Proof.
  destruct w as [x y z]. intros H. unfold rworld_perp.
  replace (rdot (V3 x y z) (V3 1 0 0)) with x by (unfold rdot; cbn; ring).
  assert (Hx : x * x = Rabs x * Rabs x)
    by (unfold Rabs; destruct (Rcase_abs x); ring).
  pose proof (Rabs_pos x) as Ha.
  destruct (Rlt_dec _ _) as [Hc|Hc]; unfold rdot, rcross in *; cbn in *.
  - assert (Hx2 : 49 / 100 < x * x) by nra. nra.
  - assert (Hx2 : x * x < 1 / 2) by nra. nra.
Qed.

Lemma rdot_rscale_l (u v : RV) (s : R) : rdot (rscale u s) v = s * rdot u v.
Proof. unfold rdot, rscale. cbn. ring. Qed.

Lemma rdot_rscale_r (u v : RV) (s : R) : rdot u (rscale v s) = s * rdot u v.
Proof. unfold rdot, rscale. cbn. ring. Qed.

Lemma rdot_rneg (v : RV) : rdot (rneg v) (rneg v) = rdot v v.
Proof. unfold rdot, rneg. cbn. ring. Qed.

Lemma rdot_rcross_l (a b : RV) : rdot a (rcross a b) = 0.
Proof. unfold rdot, rcross. cbn. ring. Qed.

Lemma rdot_rcross_l' (a b : RV) : rdot (rcross a b) a = 0.
Proof. unfold rdot, rcross. cbn. ring. Qed.

Lemma rdot_sub_scale (a b : RV) (c : R) :
  rdot (rsub a (rscale b c)) (rsub a (rscale b c)) =
  rdot a a - 2 * c * rdot a b + c * c * rdot b b.
Proof. unfold rdot, rsub, rscale. cbn. ring. Qed.

Lemma rdot_sub_scale_l (a b w : RV) (c : R) :
  rdot (rsub a (rscale b c)) w = rdot a w - c * rdot b w.
Proof. unfold rdot, rsub, rscale. cbn. ring. Qed.

Lemma rnormalize_unit (v : RV) : 0 < rdot v v -> rdot (rnormalize v) (rnormalize v) = 1.
Proof.
  intros H. unfold rnormalize. rewrite rdot_rscale_l, rdot_rscale_r.
  pose proof (sqrt_sqrt (rdot v v) (Rlt_le _ _ H)) as Hq.
  pose proof (sqrt_lt_R0 _ H) as Hp.
  replace (1 / sqrt (rdot v v) * (1 / sqrt (rdot v v) * rdot v v))
    with (rdot v v / (sqrt (rdot v v) * sqrt (rdot v v))) by (field; lra).
  rewrite Hq. field. lra.
Qed.

(** The vector [u] of [make_quad] before normalization, for a unit
    direction [dn] and a unit oriented normal [ob]: it is finite, nonzero
    and perpendicular to [dn]. *)
Lemma quad_u_lift (dn ob : RV) :
  rdot dn dn = 1 -> rdot ob ob = 1 ->
  exists U, 0 < rdot U U /\ rdot U dn = 0 /\
    (if fgt (fabs (dot (lift dn) (lift ob))) C0707
     then cross (lift dn) (world_perp (lift ob))
     else cross (lift dn) (lift ob)) = lift U.
Proof.
  intros Hd Ho. rewrite dot_lift, fabs_Fin. cbv beta iota delta [fgt flt C0707].
  destruct (Rlt_dec (707 / 1000) (Rabs (rdot dn ob))) as [Hc|Hc].
  - rewrite world_perp_lift, cross_lift.
    exists (rcross dn (rworld_perp ob)).
    split; [|split; [apply rdot_rcross_l' | reflexivity]].
    pose proof (rworld_perp_ortho ob) as Hort.
    pose proof (rworld_perp_pos ob Ho) as Hpos.
    set (W := rworld_perp ob) in *.
    set (c := rdot dn ob) in *.
    assert (Hc2 : 49 / 100 < c * c) by (unfold Rabs in Hc; destruct (Rcase_abs c); nra).
    pose proof (rdot_sub_scale dn ob c) as Hpp.
    pose proof (rdot_sub_scale_l dn ob W c) as HpW.
    set (p := rsub dn (rscale ob c)) in *.
    fold c in Hpp. rewrite Hd, Ho in Hpp. rewrite Hort in HpW.
    pose proof (rcross_norm2 p W) as Lp.
    pose proof (rdot_self_nonneg (rcross p W)) as Np.
    rewrite rcross_norm2, Hd.
    assert (HW : 0 < c * c * rdot W W) by (apply Rmult_lt_0_compat; lra).
    rewrite Hpp, HpW in Lp. nra.
  - rewrite cross_lift. exists (rcross dn ob).
    split; [|split; [apply rdot_rcross_l' | reflexivity]].
    rewrite rcross_norm2, Hd, Ho.
    unfold Rabs in Hc; destruct (Rcase_abs (rdot dn ob)); nra.
Qed.

(** The four corners [c -+ a -+ b] of [make_quad]. *)
Lemma quad_corners_dist (c a b : RV) (r : R) :
  rdot a a = r * r -> rdot b b = r * r -> rdot a b = 0 ->
  Forall (fun q => rdot (rsub q c) (rsub q c) = 2 * (r * r))
    [rsub (rsub c a) b; rsub (radd c a) b; radd (radd c a) b; radd (rsub c a) b].
Proof.
  intros Ha Hb Hab.
  repeat constructor; destruct a as [a1 a2 a3], b as [b1 b2 b3], c as [c1 c2 c3];
    unfold rdot, rsub, radd in *; cbn in *; nra.
Qed.

(** [make_quad] on finite inputs with a nonzero direction and a nonzero
    base normal: four finite corners, centroid [position + direct * radius],
    squared distance [2 radius^2] of each corner from it. *)
Lemma make_quad_lift (P D B : RV) (r : R) :
  D <> V3 0 0 0 -> B <> V3 0 0 0 ->
  exists q0 q1 q2 q3 : RV,
    make_quad (lift P) (lift D) (Fin r) (lift B) = [lift q0; lift q1; lift q2; lift q3] /\
    rscale (radd (radd (radd q0 q1) q2) q3) (1 / 4) = radd P (rscale D r) /\
    Forall (fun q => rdot (rsub q (radd P (rscale D r))) (rsub q (radd P (rscale D r)))
                     = 2 * (r * r)) [q0; q1; q2; q3].
Proof.
  intros HD HB.
  pose proof (rdot_self_pos D HD) as HD'. pose proof (rdot_self_pos B HB) as HB'.
  unfold make_quad. cbv zeta.
  rewrite (normalize_lift D HD'), (normalize_lift B HB'), dot_lift.
  assert (Hdn : rdot (rnormalize D) (rnormalize D) = 1) by (apply rnormalize_unit; exact HD').
  assert (Hbn : rdot (rnormalize B) (rnormalize B) = 1) by (apply rnormalize_unit; exact HB').
  set (dn := rnormalize D) in *. set (bn := rnormalize B) in *.
  assert (Hob : exists ob, rdot ob ob = 1 /\
    (if fgt (Fin (rdot dn B)) (Fin 0) then lift bn else vneg (lift bn)) = lift ob).
  { destruct (fgt _ _).
    - exists bn. split; [exact Hbn | reflexivity].
    - exists (rneg bn). rewrite rdot_rneg, vneg_lift. split; [exact Hbn | reflexivity]. }
  destruct Hob as (ob & Hob & ->).
  destruct (quad_u_lift dn ob Hdn Hob) as (U & HU & HUd & ->).
  assert (HUD : rdot U D = 0).
  { unfold dn, rnormalize in HUd. rewrite rdot_rscale_r in HUd.
    pose proof (sqrt_lt_R0 _ HD') as Hs.
    assert (Hinv : 0 < 1 / sqrt (rdot D D)) by (apply Rdiv_lt_0_compat; lra).
    apply Rmult_integral in HUd as [H0|H0]; lra. }
  assert (HV : 0 < rdot (rcross U D) (rcross U D)).
  { rewrite rcross_norm2, HUD. nra. }
  rewrite cross_lift, (normalize_lift U HU), (normalize_lift (rcross U D) HV).
  rewrite !vmuls_lift, !vadd_lift, !vsub_lift, !vadd_lift.
  set (a := rscale (rnormalize U) r). set (b := rscale (rnormalize (rcross U D)) r).
  set (c := radd P (rscale D r)).
  exists (rsub (rsub c a) b), (rsub (radd c a) b), (radd (radd c a) b), (radd (rsub c a) b).
  split; [reflexivity|]. split.
  - destruct a, b, c. unfold radd, rsub, rscale. cbn. f_equal; field.
  - apply quad_corners_dist.
    + unfold a. rewrite rdot_rscale_l, rdot_rscale_r, rnormalize_unit by exact HU. ring.
    + unfold b. rewrite rdot_rscale_l, rdot_rscale_r, rnormalize_unit by exact HV. ring.
    + unfold a, b, rnormalize.
      rewrite !rdot_rscale_l, !rdot_rscale_r, rdot_rcross_l. ring.
Qed.

(** ** World-perpendicular vector *)

(** The selection rule of [world_perp] as the specification words it:
    [direction × worldYAxis], or [direction × worldXAxis] when [direction]
    is nearly aligned with the world X axis. *)
Definition spec_world_perp (direct : Vector3) : Vector3 :=
  if fgt (fabs (dot direct WORLD_X_AXIS)) C0707
  then cross direct WORLD_X_AXIS
  else cross direct WORLD_Y_AXIS.

Definition unit_x : RV := V3 1 0 0.

(** ** Base-plane normal: the key as the specification words it *)

(** Truncation of a real toward zero. *)
Definition Rtrunc (x : R) : Z :=
  if Rlt_dec x 0 then (- Int_part (- x))%Z else Int_part x.

(** [weight * 100] (the [f32] product) truncated to an integer, with no
    clamping. *)
Definition spec_key (w : f32) : Z :=
  match fround (fmul w (Fin 100)) with Fin x => Rtrunc x | _ => 0%Z end.

Definition spec_weighted_indices (weights : list f32) : list (nat * Z) :=
  map (fun iw => (fst iw, spec_key (snd iw)))
    (combine (seq 0 (length weights)) weights).

(** The [N >= 4] selection of the specification: sort by [spec_key]
    descending, take the top three indices, apply the 3-sample policy. *)
Definition spec_pick (directs : list Vector3) (positions : list Point3)
  (weights : list f32) : option Vector3 :=
  match map fst (sort_desc (spec_weighted_indices weights)) with
  | i0 :: i1 :: i2 :: _ =>
      policy3 (nth i0 directs zero3) (nth i1 directs zero3) (nth i2 directs zero3)
              (nth i0 positions zero3) (nth i1 positions zero3) (nth i2 positions zero3)
  | _ => None
  end.

Definition c5_directs : list Vector3 := map lift [unit_x; unit_x; unit_x; unit_x].
Definition c5_positions : list Point3 :=
  map lift [V3 0 0 0; V3 1 0 0; V3 0 1 0; V3 2 0 0].
Definition c5_weights : list f32 :=
  [Fin (-1 / 10); Fin (-2 / 10); Fin (-3 / 10); Fin (-5 / 100)].

Lemma Int_part_IZR (z : Z) : Int_part (IZR z) = z.
Proof.
  unfold Int_part. rewrite <- (tech_up (IZR z) (z + 1)).
  - lia.
  - rewrite plus_IZR. lra.
  - rewrite plus_IZR. lra.
Qed.

Lemma Rtrunc_IZR (z : Z) : Rtrunc (IZR z) = z.
Proof.
  unfold Rtrunc. destruct (Rlt_dec (IZR z) 0).
  - rewrite <- opp_IZR, Int_part_IZR. lia.
  - apply Int_part_IZR.
Qed.

Lemma powerRZ2_pos (z : Z) : 0 < powerRZ 2 z.
Proof. apply powerRZ_lt. lra. Qed.

Lemma powerRZ2_nat (n : nat) : powerRZ 2 (Z.of_nat n) = IZR (2 ^ Z.of_nat n).
Proof. rewrite <- pow_powerRZ, pow_IZR. reflexivity. Qed.

Lemma powerRZ2_mono (a b : Z) : (a <= b)%Z -> powerRZ 2 a <= powerRZ 2 b.
Proof.
  intros H. replace b with (a + Z.of_nat (Z.to_nat (b - a)))%Z by lia.
  rewrite powerRZ_add by lra. rewrite <- pow_powerRZ.
  pose proof (powerRZ2_pos a) as Ha.
  pose proof (pow_R1_Rle 2 (Z.to_nat (b - a)) ltac:(lra)) as Hp.
  nra.
Qed.

Lemma up_IZR (z : Z) : up (IZR z) = (z + 1)%Z.
Proof. symmetry. apply tech_up; rewrite plus_IZR; lra. Qed.

Lemma round_even_IZR (z : Z) : round_even (IZR z) = z.
Proof.
  unfold round_even, floorZ. rewrite up_IZR.
  replace (z + 1 - 1)%Z with z by lia.
  replace (IZR z - IZR z) with 0 by ring.
  destruct (Rlt_dec 0 (1 / 2)); [reflexivity|lra].
Qed.

Lemma round_even_nonneg (r : R) : 0 <= r -> (0 <= round_even r)%Z.
Proof.
  intros H. destruct (archimed r) as [H1 _].
  assert (Hu : (0 < up r)%Z) by (apply lt_IZR; lra).
  unfold round_even, floorZ. cbv zeta.
  destruct (Rlt_dec _ _); [lia|]. destruct (Rlt_dec _ _); [lia|].
  destruct (Z.even _); lia.
Qed.

(** The search of [binade] stops at or below [k] when [x < 2^(k+24)]. *)
Lemma binade_below (x : R) (k : Z) : forall fuel e,
  x < powerRZ 2 (k + 24) -> (e <= k)%Z -> (k - e < Z.of_nat fuel)%Z ->
  exists e', binade fuel e x = Some e' /\ (e' <= k)%Z.
Proof.
  induction fuel as [|n IH]; intros e Hx He Hf; [lia|].
  cbn [binade]. destruct (Rlt_dec x (powerRZ 2 (e + 24))) as [H|H].
  - exists e. split; [reflexivity|exact He].
  - assert (Hne : e <> k) by (intros ->; contradiction).
    apply IH; [exact Hx|lia|lia].
Qed.

(** ... and exactly at [k] when [2^(k+23) <= x < 2^(k+24)]. *)
Lemma binade_exact (x : R) (k : Z) : forall fuel e,
  powerRZ 2 (k + 23) <= x -> x < powerRZ 2 (k + 24) -> (e <= k)%Z ->
  (k - e < Z.of_nat fuel)%Z -> binade fuel e x = Some k.
Proof.
  induction fuel as [|n IH]; intros e Hl Hx He Hf; [lia|].
  cbn [binade]. destruct (Rlt_dec x (powerRZ 2 (e + 24))) as [H|H].
  - destruct (Z.eq_dec e k) as [->|Hne]; [reflexivity|].
    pose proof (powerRZ2_mono (e + 24) (k + 23) ltac:(lia)). lra.
  - assert (Hne : e <> k) by (intros ->; contradiction).
    apply IH; [exact Hl|exact Hx|lia|lia].
Qed.

(** Integers below [2^24] are [f32] values: rounding leaves them alone. *)
Lemma round_pos_int (n : Z) : (0 <= n < 2 ^ 24)%Z -> round_pos (IZR n) = Fin (IZR n).
Proof.
  intros Hn. change (2 ^ 24)%Z with 16777216%Z in Hn. unfold round_pos.
  assert (Hx : IZR n < powerRZ 2 (0 + 24)).
  { change (0 + 24)%Z with (Z.of_nat 24). rewrite powerRZ2_nat.
    apply IZR_lt. cbn. lia. }
  destruct (binade_below (IZR n) 0 254 (-149) Hx ltac:(lia) ltac:(cbn; lia))
    as (e & He & Hle).
  rewrite He. cbv zeta.
  set (m := Z.to_nat (- e)).
  pose proof (powerRZ2_pos e) as Hp.
  assert (Hm : powerRZ 2 e * powerRZ 2 (Z.of_nat m) = 1).
  { rewrite <- powerRZ_add by lra. unfold m. rewrite Z2Nat.id by lia.
    replace (e + - e)%Z with 0%Z by lia. apply powerRZ_O. }
  assert (Hq : powerRZ 2 (Z.of_nat m) = / powerRZ 2 e).
  { apply Rmult_eq_reg_l with (powerRZ 2 e); [|lra].
    rewrite Hm, Rinv_r by lra. reflexivity. }
  assert (Hd : IZR n / powerRZ 2 e = IZR (n * 2 ^ Z.of_nat m)).
  { rewrite mult_IZR, <- powerRZ2_nat, Hq. reflexivity. }
  rewrite Hd, round_even_IZR, mult_IZR, <- powerRZ2_nat.
  replace (IZR n * powerRZ 2 (Z.of_nat m) * powerRZ 2 e) with (IZR n)
    by (rewrite Rmult_assoc, (Rmult_comm (powerRZ 2 (Z.of_nat m))), Hm; ring).
  destruct (Rle_dec (powerRZ 2 128) (IZR n)) as [Hc|Hc]; [|reflexivity].
  pose proof (powerRZ2_mono (0 + 24) 128 ltac:(lia)). lra.
Qed.

Lemma fround_IZR (z : Z) : (Z.abs z < 2 ^ 24)%Z -> fround (Fin (IZR z)) = Fin (IZR z).
Proof.
  intros Hz. unfold fround. destruct (Rlt_dec (IZR z) 0) as [H|H].
  - apply lt_IZR in H. rewrite <- opp_IZR, round_pos_int by lia.
    cbn [fneg]. rewrite opp_IZR, Ropp_involutive. reflexivity.
  - apply Rnot_lt_le, le_IZR in H. apply round_pos_int. lia.
Qed.

Lemma round_pos_nonneg (x : R) :
  0 <= x -> round_pos x = Inf false \/ exists y, round_pos x = Fin y /\ 0 <= y.
Proof.
  intros Hx. unfold round_pos.
  destruct (binade 254 (-149) x) as [e|]; [|left; reflexivity].
  cbv zeta. destruct (Rle_dec _ _); [left; reflexivity|].
  right. eexists. split; [reflexivity|].
  pose proof (powerRZ2_pos e) as Hp.
  apply Rmult_le_pos; [|lra]. apply IZR_le, round_even_nonneg.
  unfold Rdiv. apply Rmult_le_pos; [lra|]. left. apply Rinv_0_lt_compat. exact Hp.
Qed.

Lemma spec_key_Fin (x : R) (z : Z) :
  x * 100 = IZR z -> (Z.abs z < 2 ^ 24)%Z -> spec_key (Fin x) = z.
Proof.
  intros H Hz. unfold spec_key. cbn [fmul]. rewrite H, fround_IZR by exact Hz.
  apply Rtrunc_IZR.
Qed.

(** The [f32] nearest to 0.35 is [11744051 / 2^25]; times 100 it is
    34.9999994..., which [f32] multiplication rounds to 35: the key is 35,
    where truncating the exact product would give 34. *)
Lemma weighted_key_0_35 :
  weighted_indices_of [Fin (11744051 / 33554432)] = [(0%nat, 35%Z)].
Proof.
  unfold weighted_indices_of. cbn [length seq combine map fst snd fmul].
  set (x := 11744051 / 33554432 * 100).
  unfold fround. destruct (Rlt_dec x 0) as [H|_]; [unfold x in H; lra|].
  unfold round_pos.
  rewrite (binade_exact x (-18) 254 (-149)); [| | | lia | cbn; lia].
  2: { change (powerRZ 2 (-18 + 23)) with (2 * (2 * (2 * (2 * (2 * 1))))). unfold x. lra. }
  2: { change (powerRZ 2 (-18 + 24)) with (2 * (2 * (2 * (2 * (2 * (2 * 1)))))). unfold x. lra. }
  cbv zeta.
  replace (x / powerRZ 2 (-18)) with (1174405100 / 128)
    by (change (powerRZ 2 (-18)) with (/ (2 ^ 18)); unfold x; field).
  assert (Hr : round_even (1174405100 / 128) = 9175040%Z).
  { unfold round_even, floorZ.
    rewrite <- (tech_up (1174405100 / 128) 9175040) by lra.
    cbv zeta. change (9175040 - 1)%Z with 9175039%Z.
    destruct (Rlt_dec (1174405100 / 128 - IZR 9175039) (1 / 2)); [lra|].
    destruct (Rlt_dec (1 / 2) (1174405100 / 128 - IZR 9175039)); [reflexivity|lra]. }
  rewrite Hr. replace (IZR 9175040 * powerRZ 2 (-18)) with (IZR 35)
    by (change (powerRZ 2 (-18)) with (/ (2 ^ 18)); field).
  destruct (Rle_dec (powerRZ 2 128) (IZR 35)) as [Hc|_].
  - pose proof (powerRZ2_mono 6 128 ltac:(lia)) as Hm.
    change (powerRZ 2 6) with (2 * (2 * (2 * (2 * (2 * (2 * 1)))))) in Hm. lra.
  - unfold to_usize. destruct (Rlt_dec (IZR 35) 0); [lra|].
    destruct (Rle_dec (IZR usize_max) (IZR 35)) as [Hc|_].
    + apply le_IZR in Hc. unfold usize_max in Hc. cbn in Hc. lia.
    + rewrite Int_part_IZR. reflexivity.
Qed.

(** A negative product is clamped to 0 by the conversion to [usize], also
    after rounding. *)
Lemma to_usize_fround_neg (x : R) : x < 0 -> to_usize (fround (Fin x)) = 0%Z.
Proof.
  intros H. unfold fround. destruct (Rlt_dec x 0) as [_|]; [|lra].
  destruct (round_pos_nonneg (- x) ltac:(lra)) as [-> | (y & -> & Hy)]; [reflexivity|].
  cbn [fneg]. unfold to_usize. destruct (Rlt_dec (- y) 0); [reflexivity|].
  replace (- y) with 0 by lra.
  destruct (Rle_dec (IZR usize_max) 0) as [Hc|_].
  - exfalso. apply le_IZR in Hc. unfold usize_max in Hc. cbn in Hc. lia.
  - exact (Int_part_IZR 0).
Qed.

Lemma norm_lift (a b c : RV) :
  norm (lift a) (lift b) (lift c) = normalize (lift (plane_normal a b c)).
Proof. unfold norm. rewrite !vsub_lift, cross_lift. reflexivity. Qed.

Lemma normalize_unit (v : RV) : rdot v v = 1 -> normalize (lift v) = lift v.
Proof.
  intros H. rewrite normalize_lift by lra. unfold rnormalize.
  rewrite H, sqrt_1. replace (1 / 1) with 1 by field.
  destruct v as [x y z]. unfold rscale. cbn. rewrite !Rmult_1_r. reflexivity.
Qed.

Lemma flt_abs_unit_C0966 (a b : RV) :
  rdot a b = 1 -> flt (fabs (dot (lift a) (lift b))) C0966 = false.
Proof.
  intros H. rewrite dot_lift, H, fabs_Fin. unfold C0966.
  apply flt_Fin_false. rewrite Rabs_R1. lra.
Qed.

(** C1 (counterexample): for the direction (1, 0, 0), which lies on the
    world X axis, [world_perp] returns (1, 0, 0) × worldYAxis = (0, 0, 1),
    not (1, 0, 0) × worldXAxis = (0, 0, 0) as the claim says. *)
Lemma C1_counterexample :
  world_perp (lift unit_x) = lift (V3 0 0 1) /\
  spec_world_perp (lift unit_x) = lift (V3 0 0 0) /\
  world_perp (lift unit_x) <> spec_world_perp (lift unit_x).
Proof.
  assert (H1 : world_perp (lift unit_x) = lift (V3 0 0 1)).
  { unfold world_perp, fgt, C0707, WORLD_X_AXIS, WORLD_Y_AXIS, unit_x, lift; cbn.
    rdec. veq. }
  assert (H2 : spec_world_perp (lift unit_x) = lift (V3 0 0 0)).
  { unfold spec_world_perp, fgt, C0707, WORLD_X_AXIS, WORLD_Y_AXIS, unit_x, lift; cbn.
    rdec. veq. }
  split; [exact H1|]. split; [exact H2|].
  rewrite H1, H2. intros H. apply lift_inj in H. injection H. lra.
Qed.

(** C1 (amended): [world_perp direction] is [direction × worldYAxis] when
    [|direction · worldXAxis| > 0.707], and [direction × worldXAxis]
    otherwise. *)
Theorem C1_world_perp_rule (d : Vector3) :
  (fgt (fabs (dot d WORLD_X_AXIS)) C0707 = true -> world_perp d = cross d WORLD_Y_AXIS) /\
  (fgt (fabs (dot d WORLD_X_AXIS)) C0707 = false -> world_perp d = cross d WORLD_X_AXIS).
Proof.
  unfold world_perp. split; intros H; rewrite H; reflexivity.
Qed.

Lemma C1_witness :
  fgt (fabs (dot (lift unit_x) WORLD_X_AXIS)) C0707 = true /\
  world_perp (lift unit_x) = cross (lift unit_x) WORLD_Y_AXIS.
Proof.
  assert (H : fgt (fabs (dot (lift unit_x) WORLD_X_AXIS)) C0707 = true).
  { unfold C0707, WORLD_X_AXIS, unit_x. rdec. reflexivity. }
  split; [exact H|].
  apply (proj1 (C1_world_perp_rule (lift unit_x))). exact H.
Defined.

(** C3: [intersect_of_segment_and_plane p0 p1 ptOnPlane normal], with
    [u = p1 - p0], [w = p0 - ptOnPlane], [d = normal·u], [n = -normal·w]
    and [s = n / d], returns [LiesIn] when [|d| < 1e-8] and [n == 0],
    [Parallel] when [|d| < 1e-8] and [n != 0], [NoIntersection] when
    [|d| >= 1e-8] (the comparison [|d| < 1e-8] is false) and [s] is outside
    [0, 1] or not finite, and [Intersection (p0 + s·u)] otherwise.  This
    holds for every input, special values included. *)
Theorem C3_segment_plane_cases (p0 p1 pt_on_plane nrm : Vector3) :
  let u := vsub p1 p0 in
  let w := vsub p0 pt_on_plane in
  let d := dot nrm u in
  let n := fneg (dot nrm w) in
  let s := fdiv n d in
  (flt (fabs d) SMALL_NUM = true -> n = Fin 0 ->
     intersect_of_segment_and_plane p0 p1 pt_on_plane nrm = LiesIn) /\
  (flt (fabs d) SMALL_NUM = true -> n <> Fin 0 ->
     intersect_of_segment_and_plane p0 p1 pt_on_plane nrm = Parallel) /\
  (flt (fabs d) SMALL_NUM = false -> out_or_nonfinite s ->
     intersect_of_segment_and_plane p0 p1 pt_on_plane nrm = NoIntersection) /\
  (flt (fabs d) SMALL_NUM = false -> forall r, s = Fin r -> 0 <= r <= 1 ->
     intersect_of_segment_and_plane p0 p1 pt_on_plane nrm = Intersection (vadd p0 (smulv s u))).
Proof.
  intros u w d n s.
  unfold intersect_of_segment_and_plane; cbv zeta; fold u w d n s.
  repeat split.
  - intros H1 H2. rewrite H1, (feq_zero_true _ H2). reflexivity.
  - intros H1 H2. rewrite H1, (feq_zero_false _ H2). reflexivity.
  - intros H1 H2. rewrite H1. clearbody s. destruct s as [r|[|]|]; cbn in H2 |- *;
      try reflexivity.
    destruct H2 as [H2|H2].
    + destruct (Rlt_dec r 0); [reflexivity|lra].
    + destruct (Rlt_dec r 0); [reflexivity|].
      destruct (Rlt_dec 1 r); [reflexivity|lra].
  - intros H1 r Hs Hr. rewrite H1. rewrite Hs. cbn.
    destruct (Rlt_dec r 0); [lra|]. destruct (Rlt_dec 1 r); [lra|]. reflexivity.
Qed.

Lemma C3_witness :
  let p0 := lift (V3 0 0 (-1)) in
  let p1 := lift (V3 0 0 1) in
  let o := lift (V3 0 0 0) in
  let nz := lift (V3 0 0 1) in
  flt (fabs (dot nz (vsub p1 p0))) SMALL_NUM = false /\
  fdiv (fneg (dot nz (vsub p0 o))) (dot nz (vsub p1 p0)) = Fin (1 / 2) /\
  intersect_of_segment_and_plane p0 p1 o nz = Intersection (lift (V3 0 0 0)).
Proof.
  intros p0 p1 o nz.
  assert (Hd : flt (fabs (dot nz (vsub p1 p0))) SMALL_NUM = false).
  { unfold nz, p0, p1, SMALL_NUM. rdec. reflexivity. }
  assert (Hs : fdiv (fneg (dot nz (vsub p0 o))) (dot nz (vsub p1 p0)) = Fin (1 / 2)).
  { unfold nz, p0, p1, o. rdec. f_equal. field. }
  split; [exact Hd|]. split; [exact Hs|].
  rewrite (proj2 (proj2 (proj2 (C3_segment_plane_cases p0 p1 o nz))) Hd (1 / 2) Hs
             ltac:(lra)).
  rewrite Hs. unfold p0, p1. f_equal. veq.
Defined.

(** C7: for finite points [pt], [ptOnPlane] and a finite normal,
    [point_side_on_plane] returns [Front] exactly when
    [(pt - ptOnPlane)·normal > 0], [Back] exactly when it is [< 0], and
    [Coincident] exactly when it is zero. *)
Theorem C7_point_side_sign (pt pt_on_plane nrm : RV) :
  let dt := rdot (rsub pt pt_on_plane) nrm in
  (point_side_on_plane (lift pt) (lift pt_on_plane) (lift nrm) = Front <-> dt > 0) /\
  (point_side_on_plane (lift pt) (lift pt_on_plane) (lift nrm) = Back <-> dt < 0) /\
  (point_side_on_plane (lift pt) (lift pt_on_plane) (lift nrm) = Coincident <-> dt = 0).
Proof.
  intros dt. subst dt.
  unfold point_side_on_plane. rewrite vsub_lift, dot_lift. unfold fgt; cbn [flt].
  destruct (Rlt_dec 0 (rdot (rsub pt pt_on_plane) nrm));
    [|destruct (Rlt_dec (rdot (rsub pt pt_on_plane) nrm) 0)];
    repeat split; intros; try discriminate; try reflexivity; lra.
Qed.

(** C10 (counterexample): with a two-point list the test is not symmetric.
    [is_two_quads_intersect probe_segment unit_square] first tests the
    edges of the square against [probe_segment] and panics on
    [probe_segment[2]]; [is_two_quads_intersect unit_square probe_segment]
    first tests the edge of [probe_segment], which crosses the square, and
    returns [true]. *)
Lemma C10_counterexample :
  is_two_quads_intersect probe_segment unit_square = None /\
  is_two_quads_intersect unit_square probe_segment = Some true.
Proof.
  split; [reflexivity|].
  unfold is_two_quads_intersect, probe_segment, unit_square. cbn [map seq length edge_loop].
  cbn [nth_error Nat.add Nat.modulo Nat.divmod fst snd Nat.sub].
  unfold is_segment_and_quad_intersect. cbn [nth_error].
  unfold SMALL_NUM, fle. rdec. reflexivity.
Qed.

(** C10 (amended): for point lists [A] and [B] of at least three points
    each, neither call panics and
    [is_two_quads_intersect A B = is_two_quads_intersect B A]. *)
Theorem C10_quads_intersect_symmetric (A B : list Point3) :
  (3 <= length A)%nat -> (3 <= length B)%nat ->
  is_two_quads_intersect A B = is_two_quads_intersect B A /\
  is_two_quads_intersect A B <> None.
Proof.
  intros HA HB.
  rewrite (is_two_quads_intersect_orb A B HA HB), (is_two_quads_intersect_orb B A HB HA).
  split; [rewrite orb_comm; reflexivity | discriminate].
Qed.

Lemma C10_witness :
  (3 <= length unit_square)%nat /\
  is_two_quads_intersect unit_square unit_square = is_two_quads_intersect unit_square unit_square /\
  is_two_quads_intersect unit_square unit_square <> None.
Proof.
  split; [cbn; lia|].
  apply (C10_quads_intersect_symmetric unit_square unit_square); cbn; lia.
Defined.

(** C2 (counterexample): the unit square does not intersect itself
    according to [is_two_quads_intersect]: every edge lies in the square's
    own plane, so the segment-quad test rejects it as parallel. *)
Lemma C2_counterexample : is_two_quads_intersect unit_square unit_square = Some false.
Proof.
  unfold is_two_quads_intersect, unit_square. cbn [map seq length edge_loop].
  cbn [nth_error Nat.add Nat.modulo Nat.divmod fst snd Nat.sub].
  unfold is_segment_and_quad_intersect. cbn [nth_error].
  unfold SMALL_NUM, fle. rdec. reflexivity.
Qed.

(** In exact arithmetic, for four points lying in one plane
    ([(q3 - q0)·((q1 - q0) × (q2 - q0)) = 0]), every edge of the quad has
    [normal·(p0 - p1) = 0] and [is_two_quads_intersect q q] is [false]. *)
Lemma planar_quad_self_parallel (q0 q1 q2 q3 : RV) :
  rdot (plane_normal q0 q1 q2) (rsub q3 q0) = 0 ->
  is_two_quads_intersect (map lift [q0; q1; q2; q3]) (map lift [q0; q1; q2; q3]) = Some false.
Proof.
  intros Hp.
  assert (Hz : forall a b, rdot (plane_normal q0 q1 q2) (rsub a q0) = 0 ->
                 rdot (plane_normal q0 q1 q2) (rsub b q0) = 0 ->
                 is_segment_and_quad_intersect (lift a) (lift b)
                   [lift q0; lift q1; lift q2; lift q3] = Some false).
  { intros a b Ha Hb. apply seg_quad_parallel.
    rewrite plane_normal_dot_sub, Ha, Hb. ring. }
  pose proof (plane_normal_q0 q0 q1 q2) as H0.
  pose proof (plane_normal_q1 q0 q1 q2) as H1.
  pose proof (plane_normal_q2 q0 q1 q2) as H2.
  rewrite is_two_quads_intersect_orb by (cbn; lia).
  cbn [map seq length existsb]. unfold edge_hit.
  cbn [map length nth_error Nat.add Nat.modulo Nat.divmod fst snd Nat.sub].
  rewrite (Hz q0 q1 H0 H1), (Hz q1 q2 H1 H2), (Hz q2 q3 H2 Hp), (Hz q3 q0 Hp H0).
  reflexivity.
Qed.

(** A point with integer coordinates in [-64, 64].  For a quad of such
    points every [f32] operation up to the parallel test of
    [is_segment_and_quad_intersect] is exact: the differences are at most
    128, the normal's components at most [2 * 128^2], and the three terms
    of [normal·(p0 - p1)] sum to less than [2^24]; so the exact real model
    computes what the code computes. *)
Definition small_int_point (q : RV) : Prop :=
  exists x y z : Z, q = V3 (IZR x) (IZR y) (IZR z) /\
    (-64 <= x <= 64)%Z /\ (-64 <= y <= 64)%Z /\ (-64 <= z <= 64)%Z.

(** C2 (amended): for every quad of four coplanar points
    ([(q3 - q0)·((q1 - q0) × (q2 - q0)) = 0]) with integer coordinates in
    [-64, 64], [is_two_quads_intersect q q] returns [false]: each edge of
    [q] lies in the plane of [q], [normal·(p0 - p1)] is exactly 0 and the
    edge is rejected by the parallel test.  The bound on the coordinates is
    what makes the computation exact in [f32]; for other coplanar quads the
    rounding of [normal·(p0 - p1)] decides the outcome. *)
Theorem C2_small_int_quad_self_intersect_false (q0 q1 q2 q3 : RV) :
  Forall small_int_point [q0; q1; q2; q3] ->
  rdot (plane_normal q0 q1 q2) (rsub q3 q0) = 0 ->
  is_two_quads_intersect (map lift [q0; q1; q2; q3]) (map lift [q0; q1; q2; q3]) = Some false.
Proof.
  intros _ Hp. exact (planar_quad_self_parallel q0 q1 q2 q3 Hp).
Qed.

Lemma C2_witness :
  Forall small_int_point [V3 0 0 0; V3 1 0 0; V3 1 1 0; V3 0 1 0] /\
  rdot (plane_normal (V3 0 0 0) (V3 1 0 0) (V3 1 1 0)) (rsub (V3 0 1 0) (V3 0 0 0)) = 0 /\
  is_two_quads_intersect unit_square unit_square = Some false.
Proof.
  assert (Hs : Forall small_int_point [V3 0 0 0; V3 1 0 0; V3 1 1 0; V3 0 1 0]).
  { repeat constructor; eexists; eexists; eexists;
      (split; [reflexivity | repeat split; lia]). }
  assert (H : rdot (plane_normal (V3 0 0 0) (V3 1 0 0) (V3 1 1 0))
                (rsub (V3 0 1 0) (V3 0 0 0)) = 0).
  { unfold plane_normal, rdot, rcross, rsub; cbn. ring. }
  split; [exact Hs|]. split; [exact H|].
  exact (C2_small_int_quad_self_intersect_false _ _ _ _ Hs H).
Defined.




(** C9: for finite [vertexPosition], [vertexRay], a finite nonzero
    [deformNormal] and a finite [deformFactor],
    [calculate_deform_position] returns
    [vertexPosition + (deformFactor - 1)·proj], with [proj] the projection
    of [vertexRay] onto [deformNormal] flipped to face [vertexRay]; the
    displacement has no component orthogonal to [deformNormal] (it equals
    its own projection onto [deformNormal]); and with [deformFactor = 1]
    the result is [vertexPosition]. *)
Theorem C9_deform_position (vp ray n : RV) (f : R) :
  n <> V3 0 0 0 ->
  let proj := rproject ray (rface ray n) in
  let res := radd vp (rscale proj (f - 1)) in
  calculate_deform_position (lift vp) (lift ray) (lift n) (Fin f) = lift res /\
  rsub (rsub res vp) (rproject (rsub res vp) n) = V3 0 0 0 /\
  (f = 1 -> calculate_deform_position (lift vp) (lift ray) (lift n) (Fin f) = lift vp).
Proof.
  intros Hn proj res.
  pose proof (rdot_self_pos _ Hn) as Hpos.
  assert (Hcalc : calculate_deform_position (lift vp) (lift ray) (lift n) (Fin f) = lift res).
  { unfold calculate_deform_position, project_on, magnitude2, res, proj, rproject, rface.
    rewrite dot_lift. cbn [flt].
    destruct (Rlt_dec (rdot ray n) 0).
    - rewrite vneg_lift, !dot_lift, fdiv_Fin.
      + rewrite !vmuls_lift, vsub_lift, vadd_lift.
        unfold lift, radd, rsub, rscale; cbn. f_equal; apply f_equal; ring.
      + unfold rdot, rneg in *; cbn in *. lra.
    - rewrite !dot_lift, fdiv_Fin by lra.
      rewrite !vmuls_lift, vsub_lift, vadd_lift.
      unfold lift, radd, rsub, rscale; cbn. f_equal; apply f_equal; ring. }
  split; [exact Hcalc|]. split.
  - unfold res, proj, rproject, rface.
    destruct n as [nx ny nz]. unfold rdot in Hpos; cbn in Hpos.
    destruct (Rlt_dec _ 0);
      unfold rsub, radd, rscale, rneg, rdot; cbn; f_equal; field; lra.
  - intros ->. rewrite Hcalc. unfold res.
    unfold lift, radd, rscale; cbn. f_equal; apply f_equal; ring.
Qed.

Lemma C9_witness :
  V3 0 0 1 <> V3 0 0 0 /\
  calculate_deform_position (lift (V3 0 0 0)) (lift (V3 1 0 1)) (lift (V3 0 0 1)) (Fin 1)
  = lift (V3 0 0 0).
Proof.
  assert (H : V3 0 0 1 <> V3 0 0 0) by (intros E; injection E; lra).
  split; [exact H|].
  exact (proj2 (proj2 (C9_deform_position (V3 0 0 0) (V3 1 0 1) (V3 0 0 1) 1 H)) eq_refl).
Defined.



(** C5 (amended): for [N >= 4] samples with lists of equal length, the
    indices are sorted by key descending, the key of sample [i] being the
    [f32] product [weights[i] * 100.0] (rounded to the nearest [f32])
    converted to [usize] (truncated toward zero, negative and NaN values
    becoming 0); the result is the 3-sample policy applied
    to the top three indices [i0], [i1], [i2] of that order, and it is also
    what [pick_base_plane_norm] itself returns on the three samples. *)
Theorem C5_pick_top3 (ds : list Vector3) (ps : list Point3) (ws : list f32) :
  length ds = length ws -> length ps = length ws -> (4 <= length ws)%nat ->
  Sorted key_ge (sort_desc (weighted_indices_of ws)) /\
  Permutation (sort_desc (weighted_indices_of ws)) (weighted_indices_of ws) /\
  exists i0 i1 i2 rest,
    map fst (sort_desc (weighted_indices_of ws)) = i0 :: i1 :: i2 :: rest /\
    pick_base_plane_norm ds ps ws =
      Some (policy3 (nth i0 ds zero3) (nth i1 ds zero3) (nth i2 ds zero3)
                    (nth i0 ps zero3) (nth i1 ps zero3) (nth i2 ps zero3)) /\
    pick_base_plane_norm (pick3 ds zero3 i0 i1 i2) (pick3 ps zero3 i0 i1 i2)
                         (pick3 ws (Fin 0) i0 i1 i2) =
      Some (policy3 (nth i0 ds zero3) (nth i1 ds zero3) (nth i2 ds zero3)
                    (nth i0 ps zero3) (nth i1 ps zero3) (nth i2 ps zero3)).
Proof.
  intros Hd Hp H4.
  pose proof (sort_desc_perm (weighted_indices_of ws)) as Hperm.
  pose proof (sort_desc_sorted (weighted_indices_of ws)) as Hsort.
  split; [exact Hsort|]. split; [exact Hperm|].
  pose proof (Permutation_length Hperm) as Hlen.
  rewrite weighted_indices_length in Hlen.
  assert (Hin : forall e, In e (sort_desc (weighted_indices_of ws)) -> (fst e < length ws)%nat).
  { intros e He. apply weighted_indices_in. eapply Permutation_in; [exact Hperm|exact He]. }
  unfold pick_base_plane_norm at 1.
  assert (E1 : (length ds <=? 1)%nat = false) by (apply Nat.leb_gt; lia).
  assert (E2 : (length ds <=? 2)%nat = false) by (apply Nat.leb_gt; lia).
  assert (E3 : (length ds <=? 3)%nat = false) by (apply Nat.leb_gt; lia).
  rewrite E1, E2, E3.
  destruct (sort_desc (weighted_indices_of ws)) as [|e0 [|e1 [|e2 rest]]];
    cbn in Hlen; try lia.
  assert (H0 : (fst e0 < length ws)%nat) by (apply Hin; cbn; tauto).
  assert (H1 : (fst e1 < length ws)%nat) by (apply Hin; cbn; tauto).
  assert (H2 : (fst e2 < length ws)%nat) by (apply Hin; cbn; tauto).
  exists (fst e0), (fst e1), (fst e2), (map fst rest).
  split; [reflexivity|]. split; [|unfold pick_base_plane_norm, pick3, policy3; cbn; split_ifs].
  cbn [nth_error].
  rewrite !(nth_error_nth' ps zero3) by lia.
  rewrite !(nth_error_nth' ds zero3) by lia.
  unfold policy3. cbn. split_ifs.
Qed.

Lemma C5_witness :
  length (map lift [unit_x; unit_x; unit_x; unit_x]) = length [Fin 1; Fin (1/2); Fin 0; Fin 0] /\
  length c5_positions = length [Fin 1; Fin (1/2); Fin 0; Fin 0] /\
  (4 <= length [Fin 1; Fin (1/2); Fin 0; Fin 0])%nat /\
  (Sorted key_ge (sort_desc (weighted_indices_of [Fin 1; Fin (1/2); Fin 0; Fin 0])) /\
  Permutation (sort_desc (weighted_indices_of [Fin 1; Fin (1/2); Fin 0; Fin 0]))
    (weighted_indices_of [Fin 1; Fin (1/2); Fin 0; Fin 0]) /\
  exists i0 i1 i2 rest,
    map fst (sort_desc (weighted_indices_of [Fin 1; Fin (1/2); Fin 0; Fin 0])) =
      i0 :: i1 :: i2 :: rest /\
    pick_base_plane_norm (map lift [unit_x; unit_x; unit_x; unit_x]) c5_positions
      [Fin 1; Fin (1/2); Fin 0; Fin 0] =
      Some (policy3 (nth i0 (map lift [unit_x; unit_x; unit_x; unit_x]) zero3)
              (nth i1 (map lift [unit_x; unit_x; unit_x; unit_x]) zero3)
              (nth i2 (map lift [unit_x; unit_x; unit_x; unit_x]) zero3)
              (nth i0 c5_positions zero3) (nth i1 c5_positions zero3)
              (nth i2 c5_positions zero3)) /\
    pick_base_plane_norm (pick3 (map lift [unit_x; unit_x; unit_x; unit_x]) zero3 i0 i1 i2)
      (pick3 c5_positions zero3 i0 i1 i2) (pick3 [Fin 1; Fin (1/2); Fin 0; Fin 0] (Fin 0) i0 i1 i2) =
      Some (policy3 (nth i0 (map lift [unit_x; unit_x; unit_x; unit_x]) zero3)
              (nth i1 (map lift [unit_x; unit_x; unit_x; unit_x]) zero3)
              (nth i2 (map lift [unit_x; unit_x; unit_x; unit_x]) zero3)
              (nth i0 c5_positions zero3) (nth i1 c5_positions zero3)
              (nth i2 c5_positions zero3))).
Proof.
  split; [reflexivity|]. split; [reflexivity|]. split; [cbn; lia|].
  apply C5_pick_top3; [reflexivity | reflexivity | cbn; lia].
Defined.

(** C5 (counterexample): with the negative weights -0.1, -0.2, -0.3, -0.05
    the specification's truncated keys are -10, -20, -30, -5, so its top
    three samples are 3, 0, 1, whose positions are collinear and whose
    directions are parallel: it returns None. The code converts [w * 100]
    to [usize], which clamps every negative key to 0; the stable sort keeps
    the order 0, 1, 2, 3, and samples 0, 1, 2 span the plane z = 0. *)
Lemma C5_counterexample :
  spec_pick c5_directs c5_positions c5_weights = None /\
  pick_base_plane_norm c5_directs c5_positions c5_weights =
    Some (Some (lift (V3 0 0 1))).
Proof.
  split.
  - assert (Hk : spec_weighted_indices c5_weights =
                 [(0%nat, (-10)%Z); (1%nat, (-20)%Z); (2%nat, (-30)%Z); (3%nat, (-5)%Z)]).
    { unfold spec_weighted_indices, c5_weights. cbn [length seq combine map fst snd].
      rewrite (spec_key_Fin _ (-10)), (spec_key_Fin _ (-20)), (spec_key_Fin _ (-30)),
        (spec_key_Fin _ (-5)); try reflexivity; rewrite ?opp_IZR; lra. }
    unfold spec_pick. rewrite Hk. cbn -[norm policy3].
    unfold c5_directs, c5_positions, policy3. cbn [map nth].
    rewrite norm_lift.
    rewrite normalize_lift_zero
      by (unfold plane_normal, rcross, rsub, rdot; cbn; ring).
    cbn [is_valid_norm vx vy vz is_nan negb andb].
    rewrite !flt_abs_unit_C0966 by (unfold rdot, unit_x; cbn; ring).
    reflexivity.
  - assert (Hk : weighted_indices_of c5_weights =
                 [(0%nat, 0%Z); (1%nat, 0%Z); (2%nat, 0%Z); (3%nat, 0%Z)]).
    { unfold weighted_indices_of, c5_weights. cbn [length seq combine map fst snd fmul].
      rewrite !to_usize_fround_neg by lra. reflexivity. }
    unfold pick_base_plane_norm. rewrite Hk. cbn -[norm].
    unfold c5_positions. cbn [map nth_error].
    rewrite norm_lift.
    replace (plane_normal (V3 0 0 0) (V3 1 0 0) (V3 0 1 0)) with (V3 0 0 1)
      by (unfold plane_normal, rcross, rsub; cbn; f_equal; ring).
    rewrite normalize_unit by (unfold rdot; cbn; ring).
    cbn [is_valid_norm lift vx vy vz is_nan negb andb].
    rewrite normalize_unit by (unfold rdot; cbn; ring).
    reflexivity.
Qed.

(** C4 (amended): for a finite position, a finite nonzero direction, a
    finite radius and a finite nonzero base normal, [make_quad] returns
    exactly four finite points; their centroid is exactly
    [position + direct * radius], and each of them lies at distance
    [|radius| * sqrt 2] from it. *)
Theorem C4_make_quad (P D B : RV) (r : R) :
  D <> V3 0 0 0 -> B <> V3 0 0 0 ->
  exists q0 q1 q2 q3 : RV,
    make_quad (lift P) (lift D) (Fin r) (lift B) = [lift q0; lift q1; lift q2; lift q3] /\
    rscale (radd (radd (radd q0 q1) q2) q3) (1 / 4) = radd P (rscale D r) /\
    Forall (fun q => sqrt (rdot (rsub q (radd P (rscale D r)))
                                (rsub q (radd P (rscale D r)))) = Rabs r * sqrt 2)
      [q0; q1; q2; q3].
Proof.
  intros HD HB.
  destruct (make_quad_lift P D B r HD HB) as (q0 & q1 & q2 & q3 & Hq & Hc & Hd).
  exists q0, q1, q2, q3. split; [exact Hq|]. split; [exact Hc|].
  eapply Forall_impl; [|exact Hd]. intros q Hq'. cbv beta in *. rewrite Hq'.
  rewrite sqrt_mult by (lra || nra).
  change (r * r) with (Rsqr r). rewrite sqrt_Rsqr_abs. ring.
Qed.

Lemma C4_witness :
  V3 0 0 1 <> V3 0 0 0 /\ V3 1 0 0 <> V3 0 0 0 /\
  exists q0 q1 q2 q3 : RV,
    make_quad (lift (V3 0 0 0)) (lift (V3 0 0 1)) (Fin 1) (lift (V3 1 0 0)) =
      [lift q0; lift q1; lift q2; lift q3] /\
    rscale (radd (radd (radd q0 q1) q2) q3) (1 / 4) =
      radd (V3 0 0 0) (rscale (V3 0 0 1) 1) /\
    Forall (fun q => sqrt (rdot (rsub q (radd (V3 0 0 0) (rscale (V3 0 0 1) 1)))
                                (rsub q (radd (V3 0 0 0) (rscale (V3 0 0 1) 1))))
                     = Rabs 1 * sqrt 2)
      [q0; q1; q2; q3].
Proof.
  assert (H1 : V3 0 0 1 <> V3 0 0 0) by (intros H; injection H; lra).
  assert (H2 : V3 1 0 0 <> V3 0 0 0) by (intros H; injection H; lra).
  split; [exact H1|]. split; [exact H2|].
  apply (C4_make_quad (V3 0 0 0) (V3 0 0 1) (V3 1 0 0) 1 H1 H2).
Defined.

(** C4 (counterexample): with the negative radius -1 every corner lies at
    distance [sqrt 2] from the centroid, not at [radius * sqrt 2 = -sqrt 2];
    and the zero base normal, which has no NaN component, makes every
    corner NaN. *)
Lemma C4_counterexample :
  (exists q0 q1 q2 q3 : RV,
     make_quad (lift (V3 0 0 0)) (lift (V3 0 0 1)) (Fin (-1)) (lift (V3 1 0 0)) =
       [lift q0; lift q1; lift q2; lift q3] /\
     sqrt (rdot (rsub q0 (radd (V3 0 0 0) (rscale (V3 0 0 1) (-1))))
                (rsub q0 (radd (V3 0 0 0) (rscale (V3 0 0 1) (-1))))) <> -1 * sqrt 2) /\
  make_quad (lift (V3 0 0 0)) (lift (V3 0 0 1)) (Fin 1) (lift (V3 0 0 0)) =
    [V3 NaN NaN NaN; V3 NaN NaN NaN; V3 NaN NaN NaN; V3 NaN NaN NaN].
Proof.
  split.
  - assert (H1 : V3 0 0 1 <> V3 0 0 0) by (intros H; injection H; lra).
    assert (H2 : V3 1 0 0 <> V3 0 0 0) by (intros H; injection H; lra).
    destruct (make_quad_lift (V3 0 0 0) (V3 0 0 1) (V3 1 0 0) (-1) H1 H2)
      as (q0 & q1 & q2 & q3 & Hq & _ & Hd).
    exists q0, q1, q2, q3. split; [exact Hq|].
    inversion Hd as [|? ? Hd0 _]. rewrite Hd0.
    pose proof (sqrt_lt_R0 2 ltac:(lra)) as H2p.
    pose proof (sqrt_pos (2 * (-1 * -1))). lra.
  - unfold make_quad. cbv zeta.
    rewrite (normalize_lift_zero (V3 0 0 0)) by (unfold rdot; cbn; ring).
    rewrite (normalize_unit (V3 0 0 1)) by (unfold rdot; cbn; ring).
    fsimpl.
    repeat match goal with |- context [if ?b then _ else _] => destruct b end;
      reflexivity.
Qed.

(** * Further properties of util.rs *)

(** ** Helpers *)

Lemma fle_Fin_false (x y : R) : fle (Fin x) (Fin y) = false <-> y < x.
Proof.
  unfold fle; cbn. destruct (Rlt_dec x y), (Req_dec_T x y); cbn; split; intros;
    try reflexivity; try discriminate; lra.
Qed.

Lemma fabs_fsub_comm (a b : f32) : fabs (fsub a b) = fabs (fsub b a).
Proof.
  destruct a as [x|s|], b as [y|t|]; cbn; try reflexivity.
  - f_equal. replace (y + - x) with (- (x + - y)) by ring. symmetry. apply Rabs_Ropp.
  - destruct s, t; reflexivity.
Qed.

Lemma fle_abs_self_sub (a : f32) :
  fle (fabs (fsub a a)) (Fin (1 / 100)) = true <-> exists x, a = Fin x.
Proof.
  destruct a as [x|s|].
  - split; [eauto|intros _]. cbn [fsub fneg fadd fabs]. apply fle_Fin.
    replace (x + - x) with 0 by ring. rewrite Rabs_R0. lra.
  - split; [|intros [x H]; discriminate].
    intros H. destruct s; cbn in H; discriminate.
  - split; [|intros [x H]; discriminate]. intros H. cbn in H. discriminate.
Qed.



Lemma pick_loop_bound (pm : bool) (rest : list Point3) : forall i ci cx,
  (ci < i)%nat -> (pick_loop pm i rest ci cx < i + length rest)%nat.
Proof.
  induction rest as [|p rest IH]; intros i ci cx Hci; cbn [pick_loop length].
  - lia.
  - destruct pm; [destruct (fgt _ _)|destruct (flt _ _)];
      (eapply Nat.lt_le_trans; [apply IH; lia | lia]).
Qed.

(** The comparison [pick_most_not_obvious_vertex] keeps: [x] replaces the
    current choice [c] when it is larger ([pick_max]) or smaller. *)
Definition better (pm : bool) (x c : R) : Prop := if pm then c < x else x < c.

(** [k] is the first index of an extremal value of [X]. *)
Definition pick_result_ok (pm : bool) (X : list R) (k : nat) : Prop :=
  (k < length X)%nat /\
  (forall j, (j < length X)%nat -> ~ better pm (nth j X 0) (nth k X 0)) /\
  (forall j, (j < k)%nat -> better pm (nth k X 0) (nth j X 0)).

Lemma skipn_cons_nth (X : list R) (i : nat) (x : R) (t : list R) :
  skipn i X = x :: t -> skipn (S i) X = t /\ nth i X 0 = x /\ (i < length X)%nat.
Proof.
  revert i. induction X as [|y X IH]; intros i H.
  - destruct i; discriminate.
  - destruct i as [|i]; cbn in H |- *.
    + injection H; intros; subst. split; [reflexivity|]. split; [reflexivity|]. lia.
    + destruct (IH i H) as (H1 & H2 & H3). split; [exact H1|]. split; [exact H2|]. lia.
Qed.

Lemma pick_loop_inv (pm : bool) (X : list R) : forall rest i ci c,
  map vx rest = map Fin (skipn i X) -> (ci < i)%nat -> (i <= length X)%nat ->
  nth ci X 0 = c ->
  (forall j, (j < i)%nat -> ~ better pm (nth j X 0) c) ->
  (forall j, (j < ci)%nat -> better pm c (nth j X 0)) ->
  pick_result_ok pm X (pick_loop pm i rest ci (Fin c)).
Proof.
  induction rest as [|p rest IH]; intros i ci c Hm Hci Hi Hc Hle Hlt.
  - cbn [pick_loop]. cbn [map] in Hm. symmetry in Hm. apply map_eq_nil in Hm.
    pose proof (length_skipn i X) as HL. rewrite Hm in HL. cbn in HL.
    subst c. split; [lia|]. split; [|exact Hlt].
    intros j Hj. apply Hle. lia.
  - cbn [map] in Hm. destruct (skipn i X) as [|x t] eqn:Es; [discriminate|].
    cbn [map] in Hm. injection Hm as Hp Hr.
    destruct (skipn_cons_nth X i x t Es) as (Hs & Hx & Hi').
    rewrite <- Hs in Hr.
    cbn [pick_loop]. rewrite Hp.
    destruct pm; cbv beta iota delta [fgt flt];
      destruct (Rlt_dec _ _) as [Hu|Hu]; unfold better in *; cbv beta iota in *.
    + apply IH; [exact Hr | lia | lia | exact Hx | |].
      * intros j Hj. destruct (Nat.eq_dec j i) as [->|Hne]; [rewrite Hx; lra|].
        specialize (Hle j ltac:(lia)). lra.
      * intros j Hj. specialize (Hle j Hj). lra.
    + apply IH; [exact Hr | lia | lia | exact Hc | | exact Hlt].
      intros j Hj. destruct (Nat.eq_dec j i) as [->|Hne]; [rewrite Hx; exact Hu|].
      apply Hle. lia.
    + apply IH; [exact Hr | lia | lia | exact Hx | |].
      * intros j Hj. destruct (Nat.eq_dec j i) as [->|Hne]; [rewrite Hx; lra|].
        specialize (Hle j ltac:(lia)). lra.
      * intros j Hj. specialize (Hle j Hj). lra.
    + apply IH; [exact Hr | lia | lia | exact Hc | | exact Hlt].
      intros j Hj. destruct (Nat.eq_dec j i) as [->|Hne]; [rewrite Hx; exact Hu|].
      apply Hle. lia.
Qed.

(** ** Properties *)

(** X1: [almost_eq] is symmetric, for all vectors, NaN and infinite
    components included. *)
Theorem almost_eq_sym (v1 v2 : Vector3) : almost_eq v1 v2 = almost_eq v2 v1.
Proof.
  unfold almost_eq.
  rewrite (fabs_fsub_comm (vx v1)), (fabs_fsub_comm (vy v1)), (fabs_fsub_comm (vz v1)).
  reflexivity.
Qed.

(** X2: [almost_eq v v] holds exactly when every component of [v] is
    finite: an infinite component gives [inf - inf = NaN], and a NaN
    component fails the comparison. *)
Theorem almost_eq_refl_iff (v : Vector3) : almost_eq v v = true <-> exists r : RV, v = lift r.
Proof.
  destruct v as [a b c]. unfold almost_eq; cbn [vx vy vz].
  rewrite !andb_true_iff, !fle_abs_self_sub. split.
  - intros [[[x ->] [y ->]] [z ->]]. exists (V3 x y z). reflexivity.
  - intros [[x y z] E]. unfold lift in E; cbn in E. injection E; intros -> -> ->.
    split; [split|]; eexists; reflexivity.
Qed.



(** X4: for finite points, [is_point_on_segment] rejects both endpoints of
    the segment, and every point when the segment has length zero. *)
Theorem is_point_on_segment_ends (a b p : RV) :
  is_point_on_segment (lift a) (lift a) (lift b) = false /\
  is_point_on_segment (lift b) (lift a) (lift b) = false /\
  is_point_on_segment (lift p) (lift a) (lift a) = false.
Proof.
  unfold is_point_on_segment. cbv zeta. rewrite !vsub_lift, !dot_lift.
  split; [|split].
  - replace (rdot (rsub a a) (rsub b a)) with 0 by (unfold rdot, rsub; cbn; ring).
    replace (fle (Fin 0) (Fin 0)) with true by (symmetry; apply fle_Fin; lra).
    reflexivity.
  - destruct (fle (Fin (rdot (rsub b a) (rsub b a))) (Fin 0)); [reflexivity|].
    replace (fle (Fin (rdot (rsub b a) (rsub b a))) (Fin (rdot (rsub b a) (rsub b a))))
      with true by (symmetry; apply fle_Fin; lra).
    reflexivity.
  - replace (rdot (rsub p a) (rsub a a)) with 0 by (unfold rdot, rsub; cbn; ring).
    replace (fle (Fin 0) (Fin 0)) with true by (symmetry; apply fle_Fin; lra).
    reflexivity.
Qed.

(** X5: [pick_most_not_obvious_vertex] returns an index of the list, or 0
    for the empty list; it never panics. *)
Theorem pick_most_not_obvious_vertex_bound (vertices : list Point3) :
  (pick_most_not_obvious_vertex vertices < Nat.max 1 (length vertices))%nat.
Proof.
  unfold pick_most_not_obvious_vertex.
  destruct (length vertices <=? 1)%nat eqn:E; [lia|].
  destruct vertices as [|v0 rest]; [cbn in E; discriminate|].
  cbn [length]. pose proof (pick_loop_bound (flt (vx v0) (Fin 0)) rest 1 0 (vx v0)).
  lia.
Qed.

(** X6: for vertices with finite x coordinates [xs], when the first x is
    negative [pick_most_not_obvious_vertex] returns the first index of the
    largest x, and otherwise the first index of the smallest x. *)
Theorem pick_most_not_obvious_vertex_extremum (vertices : list Point3) (xs : list R) :
  map vx vertices = map Fin xs -> vertices <> [] ->
  let k := pick_most_not_obvious_vertex vertices in
  (k < length vertices)%nat /\
  (nth 0 xs 0 < 0 ->
     (forall j, (j < length xs)%nat -> nth j xs 0 <= nth k xs 0) /\
     (forall j, (j < k)%nat -> nth j xs 0 < nth k xs 0)) /\
  (0 <= nth 0 xs 0 ->
     (forall j, (j < length xs)%nat -> nth k xs 0 <= nth j xs 0) /\
     (forall j, (j < k)%nat -> nth k xs 0 < nth j xs 0)).
Proof.
  intros Hm Hne. cbv zeta.
  assert (Hlen : length vertices = length xs)
    by (pose proof (f_equal (@length f32) Hm) as L; rewrite !length_map in L; exact L).
  rewrite Hlen.
  destruct vertices as [|v0 rest]; [congruence|].
  destruct xs as [|x0 xs]; [discriminate|].
  cbn [map] in Hm. injection Hm as H0 Hr.
  assert (Ek : pick_most_not_obvious_vertex (v0 :: rest) =
               pick_loop (flt (Fin x0) (Fin 0)) 1 rest 0 (Fin x0)).
  { unfold pick_most_not_obvious_vertex. rewrite H0. destruct rest; reflexivity. }
  rewrite Ek. change (nth 0 (x0 :: xs) 0) with x0.
  destruct (flt (Fin x0) (Fin 0)) eqn:Epm.
  - apply flt_Fin in Epm.
    destruct (pick_loop_inv true (x0 :: xs) rest 1 0 x0 Hr) as (Hk & Hmax & Hfirst);
      [lia | cbn; lia | reflexivity | | intros j Hj; lia |].
    { intros j Hj. replace j with 0%nat by lia. unfold better. cbn. lra. }
    split; [exact Hk|]. split; [|intros; lra].
    intros _. split.
    + intros j Hj. specialize (Hmax j Hj). unfold better in Hmax. cbv beta iota in Hmax. lra.
    + intros j Hj. exact (Hfirst j Hj).
  - apply flt_Fin_false in Epm.
    destruct (pick_loop_inv false (x0 :: xs) rest 1 0 x0 Hr) as (Hk & Hmax & Hfirst);
      [lia | cbn; lia | reflexivity | | intros j Hj; lia |].
    { intros j Hj. replace j with 0%nat by lia. unfold better. cbn. lra. }
    split; [exact Hk|]. split; [intros; lra|].
    intros _. split.
    + intros j Hj. specialize (Hmax j Hj). unfold better in Hmax. cbv beta iota in Hmax. lra.
    + intros j Hj. exact (Hfirst j Hj).
Qed.

Definition x6_vertices : list Point3 :=
  map lift [V3 (-1) 0 0; V3 2 0 0; V3 3 0 0; V3 3 0 0].
Definition x6_xs : list R := [-1; 2; 3; 3].

Lemma X6_witness :
  map vx x6_vertices = map Fin x6_xs /\
  x6_vertices <> [] /\
  let k := pick_most_not_obvious_vertex
             x6_vertices in
  (k < length x6_vertices)%nat /\
  (nth 0 x6_xs 0 < 0 ->
     (forall j, (j < length x6_xs)%nat -> nth j x6_xs 0 <= nth k x6_xs 0) /\
     (forall j, (j < k)%nat -> nth j x6_xs 0 < nth k x6_xs 0)) /\
  (0 <= nth 0 x6_xs 0 ->
     (forall j, (j < length x6_xs)%nat -> nth k x6_xs 0 <= nth j x6_xs 0) /\
     (forall j, (j < k)%nat -> nth k x6_xs 0 < nth j x6_xs 0)).
Proof.
  assert (Hm : map vx x6_vertices =
               map Fin x6_xs) by reflexivity.
  assert (Hne : x6_vertices <> [])
    by discriminate.
  split; [exact Hm|]. split; [exact Hne|].
  exact (pick_most_not_obvious_vertex_extremum _ _ Hm Hne).
Defined.

(** ** Batch: normals, triangles, segments *)

Lemma rdot_rcross_r (a b : RV) : rdot (rcross a b) b = 0.
Proof. unfold rdot, rcross. cbn. ring. Qed.

Lemma rdot_comm (a b : RV) : rdot a b = rdot b a.
Proof. unfold rdot. ring. Qed.

Lemma fle_Fin_eq (x y : R) : fle (Fin x) (Fin y) = if Rle_dec x y then true else false.
Proof.
  destruct (Rle_dec x y) as [H|H]; [apply fle_Fin; exact H|apply fle_Fin_false; lra].
Qed.


(** [intersect_of_segment_and_plane] on finite inputs when the segment is
    not parallel to the plane. *)
Lemma intersect_lift_nonpar (p0 p1 q n : RV) :
  1 / 100000000 <= Rabs (rdot n (rsub p1 p0)) ->
  intersect_of_segment_and_plane (lift p0) (lift p1) (lift q) (lift n) =
  let s := - rdot n (rsub p0 q) / rdot n (rsub p1 p0) in
  if Rlt_dec s 0 then NoIntersection
  else if Rlt_dec 1 s then NoIntersection
  else Intersection (lift (radd p0 (rsmul s (rsub p1 p0)))).
Proof.
  intros Hd. unfold intersect_of_segment_and_plane. cbv zeta.
  rewrite !vsub_lift, !dot_lift, fabs_Fin. unfold SMALL_NUM.
  destruct (flt (Fin (Rabs (rdot n (rsub p1 p0)))) (Fin (1 / 100000000))) eqn:E.
  { apply flt_Fin in E. lra. }
  assert (Hnz : rdot n (rsub p1 p0) <> 0).
  { intros H0. rewrite H0, Rabs_R0 in Hd. lra. }
  cbn [fneg]. rewrite fdiv_Fin by exact Hnz.
  set (s := - rdot n (rsub p0 q) / rdot n (rsub p1 p0)).
  cbn [flt fgt is_nan is_infinite].
  destruct (Rlt_dec s 0); [reflexivity|]. destruct (Rlt_dec 1 s); [reflexivity|].
  cbn. rewrite smulv_lift, vadd_lift. reflexivity.
Qed.

Lemma intersect_lift_par (p0 p1 q n : RV) :
  Rabs (rdot n (rsub p1 p0)) < 1 / 100000000 ->
  intersect_of_segment_and_plane (lift p0) (lift p1) (lift q) (lift n) =
  if Req_dec_T (- rdot n (rsub p0 q)) 0 then LiesIn else Parallel.
Proof.
  intros Hd. unfold intersect_of_segment_and_plane. cbv zeta.
  rewrite !vsub_lift, !dot_lift, fabs_Fin. unfold SMALL_NUM.
  destruct (flt (Fin (Rabs (rdot n (rsub p1 p0)))) (Fin (1 / 100000000))) eqn:E.
  - cbn [fneg feq]. destruct (Req_dec_T (- rdot n (rsub p0 q)) 0); reflexivity.
  - apply flt_Fin_false in E. lra.
Qed.

(** The point [r1 + (r1 - r2) * t] that [is_segment_and_quad_intersect]
    tests: where the line through [r1], [r2] meets the plane of the quad. *)
Definition seg_quad_point (r1 r2 s1 s2 s3 : RV) : RV :=
  radd r1 (rscale (rsub r1 r2)
    (- rdot (plane_normal s1 s2 s3) (rsub r1 s1) / rdot (plane_normal s1 s2 s3) (rsub r1 r2))).

(** The final test of [is_segment_and_quad_intersect] on a point [m]. *)
Definition seg_quad_hit (m s1 s2 s3 : RV) : bool :=
  let ds21 := rsub s2 s1 in
  let ds31 := rsub s3 s1 in
  let u := rdot (rsub m s1) ds21 in
  let v := rdot (rsub m s1) ds31 in
  fle (Fin 0) (Fin u) && fle (Fin u) (Fin (rdot ds21 ds21)) &&
  fle (Fin 0) (Fin v) && fle (Fin v) (Fin (rdot ds31 ds31)).

Lemma seg_quad_lift (r1 r2 s1 s2 s3 : RV) (rest : list Point3) :
  is_segment_and_quad_intersect (lift r1) (lift r2) (lift s1 :: lift s2 :: lift s3 :: rest) =
  Some (if Rlt_dec (Rabs (rdot (plane_normal s1 s2 s3) (rsub r1 r2))) (1 / 100000000)
        then false else seg_quad_hit (seg_quad_point r1 r2 s1 s2 s3) s1 s2 s3).
Proof.
  unfold is_segment_and_quad_intersect. cbn [nth_error]. cbv zeta.
  rewrite !vsub_lift, cross_lift, !dot_lift, fabs_Fin. unfold SMALL_NUM.
  fold (plane_normal s1 s2 s3). cbn [flt].
  destruct (Rlt_dec (Rabs (rdot (plane_normal s1 s2 s3) (rsub r1 r2))) (1 / 100000000))
    as [H|H]; [reflexivity|].
  assert (Hnz : rdot (plane_normal s1 s2 s3) (rsub r1 r2) <> 0).
  { intros H0. rewrite H0, Rabs_R0 in H. lra. }
  cbn [fneg]. rewrite fdiv_Fin by exact Hnz.
  rewrite vmuls_lift, vadd_lift, vsub_lift, !dot_lift. reflexivity.
Qed.



(** X8: for three finite points that are not collinear, [norm] is a finite
    unit vector orthogonal to both sides [b - a] and [c - a], and
    [is_valid_norm] accepts it. *)
Theorem norm_unit_normal (a b c : RV) :
  plane_normal a b c <> V3 0 0 0 ->
  exists n, norm (lift a) (lift b) (lift c) = lift n /\ rdot n n = 1 /\
    rdot n (rsub b a) = 0 /\ rdot n (rsub c a) = 0 /\
    is_valid_norm (norm (lift a) (lift b) (lift c)) = true.
Proof.
  intros H. pose proof (rdot_self_pos _ H) as Hp.
  rewrite norm_lift, normalize_lift by exact Hp.
  exists (rnormalize (plane_normal a b c)). split; [reflexivity|].
  split; [apply rnormalize_unit; exact Hp|].
  unfold rnormalize. rewrite !rdot_rscale_l, plane_normal_q1, plane_normal_q2.
  split; [ring|]. split; [ring|]. reflexivity.
Qed.

Lemma X8_witness :
  plane_normal (V3 0 0 0) (V3 1 0 0) (V3 0 1 0) <> V3 0 0 0 /\
  exists n, norm (lift (V3 0 0 0)) (lift (V3 1 0 0)) (lift (V3 0 1 0)) = lift n /\
    rdot n n = 1 /\ rdot n (rsub (V3 1 0 0) (V3 0 0 0)) = 0 /\
    rdot n (rsub (V3 0 1 0) (V3 0 0 0)) = 0 /\
    is_valid_norm (norm (lift (V3 0 0 0)) (lift (V3 1 0 0)) (lift (V3 0 1 0))) = true.
Proof.
  assert (H : plane_normal (V3 0 0 0) (V3 1 0 0) (V3 0 1 0) <> V3 0 0 0).
  { unfold plane_normal, rcross, rsub; cbn. intros E. injection E. lra. }
  split; [exact H|]. exact (norm_unit_normal _ _ _ H).
Defined.



(** X10: for finite inputs, an [Intersection x] result is a point of the
    segment, [x = p0 + s (p1 - p0)] with [0 <= s <= 1], that lies exactly
    on the plane. *)
Theorem intersection_on_plane_and_segment (p0 p1 q n : RV) (x : Point3) :
  intersect_of_segment_and_plane (lift p0) (lift p1) (lift q) (lift n) = Intersection x ->
  exists s, 0 <= s <= 1 /\ x = lift (radd p0 (rsmul s (rsub p1 p0))) /\
    rdot n (rsub (radd p0 (rsmul s (rsub p1 p0))) q) = 0.
Proof.
  intros H.
  destruct (Rlt_dec (Rabs (rdot n (rsub p1 p0))) (1 / 100000000)) as [Hp|Hp].
  { rewrite intersect_lift_par in H by exact Hp.
    destruct (Req_dec_T _ 0); discriminate. }
  rewrite intersect_lift_nonpar in H by lra. cbv zeta in H.
  assert (Hnz : rdot n (rsub p1 p0) <> 0).
  { intros H0. rewrite H0, Rabs_R0 in Hp. lra. }
  set (s := - rdot n (rsub p0 q) / rdot n (rsub p1 p0)) in H.
  destruct (Rlt_dec s 0); [discriminate|]. destruct (Rlt_dec 1 s); [discriminate|].
  injection H as <-. exists s. split; [lra|]. split; [reflexivity|].
  unfold s. unfold rdot, rsub, radd, rsmul in *; cbn in *. field. exact Hnz.
Qed.

Lemma segment_z_origin :
  intersect_of_segment_and_plane (lift (V3 0 0 (-1))) (lift (V3 0 0 1))
    (lift (V3 0 0 0)) (lift (V3 0 0 1)) = Intersection (lift (V3 0 0 0)).
Proof.
  rewrite intersect_lift_nonpar
    by (unfold rdot, rsub; cbn; rewrite Rabs_right; lra).
  cbv zeta. unfold rdot, rsub; cbn.
  replace (- (0 * (0 - 0) + 0 * (0 - 0) + 1 * (-1 - 0)) /
             (0 * (0 - 0) + 0 * (0 - 0) + 1 * (1 - -1))) with (1 / 2) by field.
  destruct (Rlt_dec (1 / 2) 0); [lra|]. destruct (Rlt_dec 1 (1 / 2)); [lra|].
  f_equal. unfold lift, radd, rsmul; cbn. f_equal; f_equal; field.
Qed.

Lemma X10_witness :
  intersect_of_segment_and_plane (lift (V3 0 0 (-1))) (lift (V3 0 0 1))
    (lift (V3 0 0 0)) (lift (V3 0 0 1)) = Intersection (lift (V3 0 0 0)) /\
  exists s, 0 <= s <= 1 /\
    lift (V3 0 0 0) = lift (radd (V3 0 0 (-1)) (rsmul s (rsub (V3 0 0 1) (V3 0 0 (-1))))) /\
    rdot (V3 0 0 1) (rsub (radd (V3 0 0 (-1)) (rsmul s (rsub (V3 0 0 1) (V3 0 0 (-1)))))
                          (V3 0 0 0)) = 0.
Proof.
  split; [exact segment_z_origin|].
  exact (intersection_on_plane_and_segment _ _ _ _ _ segment_z_origin).
Defined.

(** X11: for finite inputs and a segment that is not parallel to the
    plane ([|normal·(p1 - p0)| >= 1e-8]), reversing the segment does not
    change the result: the same intersection point, or no intersection
    for both. *)
Theorem intersect_reverse (p0 p1 q n : RV) :
  1 / 100000000 <= Rabs (rdot n (rsub p1 p0)) ->
  intersect_of_segment_and_plane (lift p1) (lift p0) (lift q) (lift n) =
  intersect_of_segment_and_plane (lift p0) (lift p1) (lift q) (lift n).
Proof.
  intros Hd.
  assert (Hr : rdot n (rsub p0 p1) = - rdot n (rsub p1 p0))
    by (unfold rdot, rsub; cbn; ring).
  assert (Hnz : rdot n (rsub p1 p0) <> 0).
  { intros H0. rewrite H0, Rabs_R0 in Hd. lra. }
  rewrite (intersect_lift_nonpar p1 p0) by (rewrite Hr, Rabs_Ropp; exact Hd).
  rewrite (intersect_lift_nonpar p0 p1) by exact Hd. cbv zeta.
  assert (Hs : - rdot n (rsub p1 q) / rdot n (rsub p0 p1) =
               1 - - rdot n (rsub p0 q) / rdot n (rsub p1 p0)).
  { rewrite Hr.
    replace (rdot n (rsub p1 q)) with (rdot n (rsub p0 q) + rdot n (rsub p1 p0))
      by (unfold rdot, rsub; cbn; ring).
    field. exact Hnz. }
  rewrite Hs. set (s := - rdot n (rsub p0 q) / rdot n (rsub p1 p0)).
  destruct (Rlt_dec (1 - s) 0), (Rlt_dec 1 (1 - s)), (Rlt_dec s 0), (Rlt_dec 1 s);
    try reflexivity; try lra.
  f_equal. unfold lift, radd, rsmul, rsub; cbn. f_equal; f_equal; ring.
Qed.

Lemma X11_witness :
  1 / 100000000 <= Rabs (rdot (V3 0 0 1) (rsub (V3 0 0 1) (V3 0 0 (-1)))) /\
  intersect_of_segment_and_plane (lift (V3 0 0 1)) (lift (V3 0 0 (-1)))
    (lift (V3 0 0 0)) (lift (V3 0 0 1)) =
  intersect_of_segment_and_plane (lift (V3 0 0 (-1))) (lift (V3 0 0 1))
    (lift (V3 0 0 0)) (lift (V3 0 0 1)).
Proof.
  assert (H : 1 / 100000000 <= Rabs (rdot (V3 0 0 1) (rsub (V3 0 0 1) (V3 0 0 (-1)))))
    by (unfold rdot, rsub; cbn; rewrite Rabs_right; lra).
  split; [exact H|]. exact (intersect_reverse _ _ _ _ H).
Defined.

(** X12: [is_segment_and_quad_intersect] panics (indexes out of range)
    exactly when the quad has fewer than three points. *)
Theorem seg_quad_panic_iff (p0 p1 : Point3) (quad : list Point3) :
  is_segment_and_quad_intersect p0 p1 quad = None <-> (length quad < 3)%nat.
Proof.
  split.
  - intros H. destruct (Nat.lt_ge_cases (length quad) 3) as [Hl|Hge]; [exact Hl|].
    destruct (seg_quad_no_panic p0 p1 quad Hge) as [h Hh]. congruence.
  - intros H. destruct quad as [|s1 [|s2 [|s3 rest]]]; cbn in H; try lia; reflexivity.
Qed.

(** X13: for finite points, [is_segment_and_quad_intersect] does not
    depend on the order of the two endpoints. *)
Theorem seg_quad_swap (p0 p1 : RV) (qs : list RV) :
  is_segment_and_quad_intersect (lift p0) (lift p1) (map lift qs) =
  is_segment_and_quad_intersect (lift p1) (lift p0) (map lift qs).
Proof.
  destruct qs as [|s1 [|s2 [|s3 rest]]]; try reflexivity.
  cbn [map]. rewrite !seg_quad_lift.
  set (N := plane_normal s1 s2 s3).
  assert (Hr : rdot N (rsub p1 p0) = - rdot N (rsub p0 p1)) by (unfold rdot, rsub; cbn; ring).
  rewrite Hr, Rabs_Ropp.
  destruct (Rlt_dec (Rabs (rdot N (rsub p0 p1))) (1 / 100000000)) as [H|H];
    [reflexivity|].
  assert (Hnz : rdot N (rsub p0 p1) <> 0).
  { intros H0. rewrite H0, Rabs_R0 in H. lra. }
  do 2 f_equal. unfold seg_quad_point. fold N.
  set (t := - rdot N (rsub p0 s1) / rdot N (rsub p0 p1)).
  assert (Ht : - rdot N (rsub p1 s1) / rdot N (rsub p1 p0) = -1 - t).
  { unfold t. rewrite Hr.
    replace (rdot N (rsub p1 s1)) with (rdot N (rsub p0 s1) - rdot N (rsub p0 p1))
      by (unfold rdot, rsub; cbn; ring).
    field. exact Hnz. }
  rewrite Ht. unfold radd, rscale, rsub; cbn. f_equal; ring.
Qed.

(** X14: for finite points, [is_segment_and_quad_intersect] tests the
    line through [p0] and [p1], not the segment: moving [p1] anywhere
    else on that line, [p0 + k (p1 - p0)], gives the same result as long
    as neither direction falls under the parallel threshold 1e-8. *)
Theorem seg_quad_line_only (p0 p1 s1 s2 s3 : RV) (rest : list Point3) (k : R) :
  1 / 100000000 <= Rabs (rdot (plane_normal s1 s2 s3) (rsub p0 p1)) ->
  1 / 100000000 <= Rabs (k * rdot (plane_normal s1 s2 s3) (rsub p0 p1)) ->
  is_segment_and_quad_intersect (lift p0) (lift (radd p0 (rscale (rsub p1 p0) k)))
    (lift s1 :: lift s2 :: lift s3 :: rest) =
  is_segment_and_quad_intersect (lift p0) (lift p1) (lift s1 :: lift s2 :: lift s3 :: rest).
Proof.
  intros H1 H2. rewrite !seg_quad_lift.
  set (N := plane_normal s1 s2 s3) in *.
  assert (Hk : rdot N (rsub p0 (radd p0 (rscale (rsub p1 p0) k))) =
               k * rdot N (rsub p0 p1)) by (unfold rdot, rsub, radd, rscale; cbn; ring).
  rewrite Hk.
  destruct (Rlt_dec (Rabs (k * rdot N (rsub p0 p1))) (1 / 100000000)); [lra|].
  destruct (Rlt_dec (Rabs (rdot N (rsub p0 p1))) (1 / 100000000)); [lra|].
  assert (Hnz : rdot N (rsub p0 p1) <> 0).
  { intros H0. rewrite H0, Rabs_R0 in H1. lra. }
  assert (Hk0 : k <> 0).
  { intros H0. rewrite H0, Rmult_0_l, Rabs_R0 in H2. lra. }
  do 2 f_equal. unfold seg_quad_point. fold N. rewrite Hk.
  unfold radd, rscale, rsub; cbn. f_equal; field; split; assumption.
Qed.

Lemma X14_witness :
  1 / 100000000 <= Rabs (rdot (plane_normal (V3 0 0 0) (V3 1 0 0) (V3 1 1 0))
                              (rsub (V3 (1 / 2) (1 / 2) (-1)) (V3 (1 / 2) (1 / 2) 1))) /\
  1 / 100000000 <= Rabs (4 * rdot (plane_normal (V3 0 0 0) (V3 1 0 0) (V3 1 1 0))
                              (rsub (V3 (1 / 2) (1 / 2) (-1)) (V3 (1 / 2) (1 / 2) 1))) /\
  is_segment_and_quad_intersect (lift (V3 (1 / 2) (1 / 2) (-1)))
    (lift (radd (V3 (1 / 2) (1 / 2) (-1))
                (rscale (rsub (V3 (1 / 2) (1 / 2) 1) (V3 (1 / 2) (1 / 2) (-1))) 4)))
    (lift (V3 0 0 0) :: lift (V3 1 0 0) :: lift (V3 1 1 0) :: [lift (V3 0 1 0)]) =
  is_segment_and_quad_intersect (lift (V3 (1 / 2) (1 / 2) (-1))) (lift (V3 (1 / 2) (1 / 2) 1))
    (lift (V3 0 0 0) :: lift (V3 1 0 0) :: lift (V3 1 1 0) :: [lift (V3 0 1 0)]).
Proof.
  assert (E : rdot (plane_normal (V3 0 0 0) (V3 1 0 0) (V3 1 1 0))
                (rsub (V3 (1 / 2) (1 / 2) (-1)) (V3 (1 / 2) (1 / 2) 1)) = -2)
    by (unfold plane_normal, rdot, rcross, rsub; cbn; field).
  assert (H1 : 1 / 100000000 <= Rabs (rdot (plane_normal (V3 0 0 0) (V3 1 0 0) (V3 1 1 0))
                              (rsub (V3 (1 / 2) (1 / 2) (-1)) (V3 (1 / 2) (1 / 2) 1))))
    by (rewrite E, Rabs_left; lra).
  assert (H2 : 1 / 100000000 <= Rabs (4 * rdot (plane_normal (V3 0 0 0) (V3 1 0 0) (V3 1 1 0))
                              (rsub (V3 (1 / 2) (1 / 2) (-1)) (V3 (1 / 2) (1 / 2) 1))))
    by (rewrite E, Rabs_left; lra).
  split; [exact H1|]. split; [exact H2|].
  exact (seg_quad_line_only _ _ _ _ _ _ _ H1 H2).
Defined.

(** ** Batch: angles, deformation, quads, base-plane normal *)

Lemma angle360_lift (a b r : RV) :
  -1 <= rdot a b <= 1 ->
  angle360 (lift a) (lift b) (lift r) =
  if Rlt_dec (rdot (rcross a b) r) 0
  then Fin (180 + acos (rdot a b) * (180 / PI))
  else Fin (acos (rdot a b) * (180 / PI)).
Proof.
  intros [H1 H2]. unfold angle360, deg_of_rad. cbv zeta.
  rewrite dot_lift, cross_lift, dot_lift. cbn [facos].
  destruct (Rle_dec (-1) (rdot a b)); [|lra]. destruct (Rle_dec (rdot a b) 1); [|lra].
  cbn [flt fmul fadd]. destruct (Rlt_dec (rdot (rcross a b) r) 0); reflexivity.
Qed.

Lemma rdot_rcross_swap (a b r : RV) : rdot (rcross b a) r = - rdot (rcross a b) r.
Proof. unfold rdot, rcross. cbn. ring. Qed.

(** X15: swapping the two vectors of [angle360] (finite, with
    [-1 <= a·b <= 1]) gives the same angle when [(a × b)·direct = 0] and
    an angle exactly 180 degrees apart otherwise. *)
Theorem angle360_swap (a b r : RV) :
  -1 <= rdot a b <= 1 ->
  exists x y, angle360 (lift a) (lift b) (lift r) = Fin x /\
    angle360 (lift b) (lift a) (lift r) = Fin y /\
    (rdot (rcross a b) r = 0 -> x = y) /\
    (rdot (rcross a b) r <> 0 -> Rabs (x - y) = 180).
Proof.
  intros H. pose proof H as H'. rewrite rdot_comm in H'.
  rewrite (angle360_lift a b r H), (angle360_lift b a r H').
  rewrite (rdot_rcross_swap a b r), (rdot_comm b a).
  set (c := rdot (rcross a b) r). set (t := acos (rdot a b) * (180 / PI)).
  destruct (Rlt_dec c 0) as [Hc|Hc]; destruct (Rlt_dec (- c) 0) as [Hc'|Hc']; try lra.
  - eexists; eexists; split; [reflexivity|]. split; [reflexivity|].
    split; [lra|]. intros _. replace (180 + t - t) with 180 by ring.
    apply Rabs_right. lra.
  - eexists; eexists; split; [reflexivity|]. split; [reflexivity|].
    split; [lra|]. intros _. replace (t - (180 + t)) with (-180) by ring.
    rewrite Rabs_left by lra. ring.
  - eexists; eexists; split; [reflexivity|]. split; [reflexivity|].
    split; [reflexivity|]. intros Hn. lra.
Qed.

Lemma X15_witness :
  -1 <= rdot (V3 1 0 0) (V3 0 1 0) <= 1 /\
  exists x y, angle360 (lift (V3 1 0 0)) (lift (V3 0 1 0)) (lift (V3 0 0 1)) = Fin x /\
    angle360 (lift (V3 0 1 0)) (lift (V3 1 0 0)) (lift (V3 0 0 1)) = Fin y /\
    (rdot (rcross (V3 1 0 0) (V3 0 1 0)) (V3 0 0 1) = 0 -> x = y) /\
    (rdot (rcross (V3 1 0 0) (V3 0 1 0)) (V3 0 0 1) <> 0 -> Rabs (x - y) = 180).
Proof.
  assert (H : -1 <= rdot (V3 1 0 0) (V3 0 1 0) <= 1) by (unfold rdot; cbn; lra).
  split; [exact H|]. exact (angle360_swap _ _ _ H).
Defined.

(** X16: when [a·b] falls outside [-1, 1] (vectors that are not unit
    length), [acos] is NaN and [angle360] returns NaN. *)
Theorem angle360_nan (a b r : RV) :
  ~ (-1 <= rdot a b <= 1) -> angle360 (lift a) (lift b) (lift r) = NaN.
Proof.
  intros H. unfold angle360, deg_of_rad. cbv zeta.
  rewrite dot_lift, cross_lift, dot_lift. cbn [facos].
  destruct (Rle_dec (-1) (rdot a b)); [destruct (Rle_dec (rdot a b) 1); [lra|]|];
    destruct (flt _ _); reflexivity.
Qed.

Lemma X16_witness :
  ~ (-1 <= rdot (V3 2 0 0) (V3 2 0 0) <= 1) /\
  angle360 (lift (V3 2 0 0)) (lift (V3 2 0 0)) (lift (V3 0 0 1)) = NaN.
Proof.
  assert (H : ~ (-1 <= rdot (V3 2 0 0) (V3 2 0 0) <= 1)) by (unfold rdot; cbn; lra).
  split; [exact H|]. exact (angle360_nan _ _ _ H).
Defined.

Lemma rproject_rneg (ray n : RV) : rproject ray (rneg n) = rproject ray n.
Proof.
  unfold rproject, rneg, rscale, rdot. cbn. f_equal;
  replace (- vx n * - vx n + - vy n * - vy n + - vz n * - vz n)
    with (vx n * vx n + vy n * vy n + vz n * vz n) by ring;
  unfold Rdiv; ring.
Qed.

Lemma deform_lift (vp ray n : RV) (f : R) :
  n <> V3 0 0 0 ->
  calculate_deform_position (lift vp) (lift ray) (lift n) (Fin f) =
  lift (radd vp (rscale (rproject ray n) (f - 1))).
Proof.
  intros Hn. pose proof (rdot_self_pos _ Hn) as Hpos.
  unfold calculate_deform_position, project_on, magnitude2.
  rewrite dot_lift. cbn [flt].
  destruct (Rlt_dec (rdot ray n) 0).
  - rewrite vneg_lift, !dot_lift, fdiv_Fin by (rewrite rdot_rneg; lra).
    rewrite !vmuls_lift, vsub_lift, vadd_lift.
    rewrite <- (rproject_rneg ray n). unfold rproject.
    unfold lift, radd, rsub, rscale; cbn. f_equal; apply f_equal; ring.
  - rewrite !dot_lift, fdiv_Fin by lra.
    rewrite !vmuls_lift, vsub_lift, vadd_lift. unfold rproject.
    unfold lift, radd, rsub, rscale; cbn. f_equal; apply f_equal; ring.
Qed.

(** X17: for finite inputs and a nonzero [deform_norm], the sign flip of
    [calculate_deform_position] has no effect: the result is
    [vert_position + (deform_factor - 1) proj] with [proj] the projection
    of [vert_ray] onto [deform_norm] itself, and negating [deform_norm]
    gives the same position. *)
Theorem deform_norm_sign_free (vp ray n : RV) (f : R) :
  n <> V3 0 0 0 ->
  calculate_deform_position (lift vp) (lift ray) (lift n) (Fin f) =
    lift (radd vp (rscale (rproject ray n) (f - 1))) /\
  calculate_deform_position (lift vp) (lift ray) (vneg (lift n)) (Fin f) =
    calculate_deform_position (lift vp) (lift ray) (lift n) (Fin f).
Proof.
  intros Hn. split; [apply deform_lift; exact Hn|].
  assert (Hn' : rneg n <> V3 0 0 0).
  { intros E. apply Hn. destruct n as [x y z]. unfold rneg in E; cbn in E.
    injection E as E1 E2 E3. f_equal; lra. }
  rewrite vneg_lift, !deform_lift by assumption. rewrite rproject_rneg. reflexivity.
Qed.

Lemma X17_witness :
  V3 0 0 1 <> V3 0 0 0 /\
  calculate_deform_position (lift (V3 0 0 0)) (lift (V3 1 0 1)) (lift (V3 0 0 1)) (Fin 2) =
    lift (radd (V3 0 0 0) (rscale (rproject (V3 1 0 1) (V3 0 0 1)) (2 - 1))) /\
  calculate_deform_position (lift (V3 0 0 0)) (lift (V3 1 0 1)) (vneg (lift (V3 0 0 1))) (Fin 2) =
    calculate_deform_position (lift (V3 0 0 0)) (lift (V3 1 0 1)) (lift (V3 0 0 1)) (Fin 2).
Proof.
  assert (H : V3 0 0 1 <> V3 0 0 0) by (intros E; injection E; lra).
  split; [exact H|]. exact (deform_norm_sign_free _ _ _ _ H).
Defined.

(** X18: a zero [deform_norm] makes the projection divide 0 by 0: the
    position returned is NaN in every component, whatever the factor. *)
Theorem deform_zero_norm_nan (vp ray : RV) (f : f32) :
  calculate_deform_position (lift vp) (lift ray) (lift (V3 0 0 0)) f = V3 NaN NaN NaN.
Proof.
  unfold calculate_deform_position. cbv zeta.
  rewrite dot_lift.
  replace (rdot ray (V3 0 0 0)) with 0 by (unfold rdot; cbn; ring).
  cbn [flt]. destruct (Rlt_dec 0 0) as [H|_]; [lra|].
  unfold project_on, magnitude2. rewrite !dot_lift.
  replace (rdot ray (V3 0 0 0)) with 0 by (unfold rdot; cbn; ring).
  replace (rdot (V3 0 0 0) (V3 0 0 0)) with 0 by (unfold rdot; cbn; ring).
  cbn [fdiv]. destruct (Req_dec_T 0 0) as [_|H]; [|congruence].
  destruct f; reflexivity.
Qed.

Lemma rdot_rcross_r' (a b : RV) : rdot b (rcross a b) = 0.
Proof. unfold rdot, rcross. cbn. ring. Qed.

(** [make_quad] on finite inputs with nonzero direction and base normal:
    the corners [c -+ a -+ b] around [c = position + direct * radius], with
    [a] and [b] orthogonal, of length [|radius|], and orthogonal to
    [direct]. *)
Lemma make_quad_frame (P D B : RV) (r : R) :
  D <> V3 0 0 0 -> B <> V3 0 0 0 ->
  exists a b : RV,
    make_quad (lift P) (lift D) (Fin r) (lift B) =
      [lift (rsub (rsub (radd P (rscale D r)) a) b); lift (rsub (radd (radd P (rscale D r)) a) b);
       lift (radd (radd (radd P (rscale D r)) a) b); lift (radd (rsub (radd P (rscale D r)) a) b)] /\
    rdot a a = r * r /\ rdot b b = r * r /\ rdot a b = 0 /\ rdot a D = 0 /\ rdot b D = 0.
Proof.
  intros HD HB.
  pose proof (rdot_self_pos D HD) as HD'. pose proof (rdot_self_pos B HB) as HB'.
  unfold make_quad. cbv zeta.
  rewrite (normalize_lift D HD'), (normalize_lift B HB'), dot_lift.
  assert (Hdn : rdot (rnormalize D) (rnormalize D) = 1) by (apply rnormalize_unit; exact HD').
  assert (Hbn : rdot (rnormalize B) (rnormalize B) = 1) by (apply rnormalize_unit; exact HB').
  set (dn := rnormalize D) in *. set (bn := rnormalize B) in *.
  assert (Hob : exists ob, rdot ob ob = 1 /\
    (if fgt (Fin (rdot dn B)) (Fin 0) then lift bn else vneg (lift bn)) = lift ob).
  { destruct (fgt _ _).
    - exists bn. split; [exact Hbn | reflexivity].
    - exists (rneg bn). rewrite rdot_rneg, vneg_lift. split; [exact Hbn | reflexivity]. }
  destruct Hob as (ob & Hob & ->).
  destruct (quad_u_lift dn ob Hdn Hob) as (U & HU & HUd & ->).
  assert (HUD : rdot U D = 0).
  { unfold dn, rnormalize in HUd. rewrite rdot_rscale_r in HUd.
    pose proof (sqrt_lt_R0 _ HD') as Hs.
    assert (Hinv : 0 < 1 / sqrt (rdot D D)) by (apply Rdiv_lt_0_compat; lra).
    apply Rmult_integral in HUd as [H0|H0]; lra. }
  assert (HV : 0 < rdot (rcross U D) (rcross U D)).
  { rewrite rcross_norm2, HUD. nra. }
  rewrite cross_lift, (normalize_lift U HU), (normalize_lift (rcross U D) HV).
  rewrite !vmuls_lift, !vadd_lift, !vsub_lift, !vadd_lift.
  exists (rscale (rnormalize U) r), (rscale (rnormalize (rcross U D)) r).
  split; [reflexivity|].
  unfold rnormalize. rewrite !rdot_rscale_l, !rdot_rscale_r.
  rewrite rdot_rcross_l, rdot_rcross_r, HUD.
  pose proof (rnormalize_unit U HU) as NU. pose proof (rnormalize_unit _ HV) as NV.
  unfold rnormalize in NU, NV. rewrite !rdot_rscale_l, !rdot_rscale_r in NU, NV.
  repeat split; try ring.
  - transitivity (r * r * (1 / sqrt (rdot U U) * (1 / sqrt (rdot U U) * rdot U U))); [ring|].
    rewrite NU. ring.
  - transitivity (r * r * (1 / sqrt (rdot (rcross U D) (rcross U D)) *
      (1 / sqrt (rdot (rcross U D) (rcross U D)) * rdot (rcross U D) (rcross U D)))); [ring|].
    rewrite NV. ring.
Qed.

(** X19: for finite inputs with a nonzero direction and a nonzero base
    normal, the four corners of [make_quad], in their order, form a square:
    each side has squared length [4 radius^2] and is orthogonal to
    [direct], and consecutive sides are orthogonal. *)
Theorem make_quad_square (P D B : RV) (r : R) :
  D <> V3 0 0 0 -> B <> V3 0 0 0 ->
  exists q0 q1 q2 q3 : RV,
    make_quad (lift P) (lift D) (Fin r) (lift B) = [lift q0; lift q1; lift q2; lift q3] /\
    Forall (fun s => rdot s s = 4 * (r * r) /\ rdot s D = 0)
      [rsub q1 q0; rsub q2 q1; rsub q3 q2; rsub q0 q3] /\
    rdot (rsub q1 q0) (rsub q2 q1) = 0 /\ rdot (rsub q2 q1) (rsub q3 q2) = 0 /\
    rdot (rsub q3 q2) (rsub q0 q3) = 0 /\ rdot (rsub q0 q3) (rsub q1 q0) = 0.
Proof.
  intros HD HB. destruct (make_quad_frame P D B r HD HB) as (a & b & E & Ha & Hb & Hab & HaD & HbD).
  set (c := radd P (rscale D r)) in E.
  eexists; eexists; eexists; eexists. split; [exact E|].
  assert (S1 : rsub (rsub (radd c a) b) (rsub (rsub c a) b) = rscale a 2)
    by (unfold rsub, radd, rscale; cbn; f_equal; ring).
  assert (S2 : rsub (radd (radd c a) b) (rsub (radd c a) b) = rscale b 2)
    by (unfold rsub, radd, rscale; cbn; f_equal; ring).
  assert (S3 : rsub (radd (rsub c a) b) (radd (radd c a) b) = rscale a (-2))
    by (unfold rsub, radd, rscale; cbn; f_equal; ring).
  assert (S4 : rsub (rsub (rsub c a) b) (radd (rsub c a) b) = rscale b (-2))
    by (unfold rsub, radd, rscale; cbn; f_equal; ring).
  rewrite S1, S2, S3, S4.
  assert (Hba : rdot b a = 0) by (rewrite rdot_comm; exact Hab).
  repeat constructor; rewrite ?rdot_rscale_l, ?rdot_rscale_r;
    rewrite ?Ha, ?Hb, ?Hab, ?Hba, ?HaD, ?HbD; ring.
Qed.

Lemma X19_witness :
  V3 0 0 1 <> V3 0 0 0 /\ V3 0 0 1 <> V3 0 0 0 /\
  exists q0 q1 q2 q3 : RV,
    make_quad (lift (V3 0 0 0)) (lift (V3 0 0 1)) (Fin 1) (lift (V3 0 0 1)) =
      [lift q0; lift q1; lift q2; lift q3] /\
    Forall (fun s => rdot s s = 4 * (1 * 1) /\ rdot s (V3 0 0 1) = 0)
      [rsub q1 q0; rsub q2 q1; rsub q3 q2; rsub q0 q3] /\
    rdot (rsub q1 q0) (rsub q2 q1) = 0 /\ rdot (rsub q2 q1) (rsub q3 q2) = 0 /\
    rdot (rsub q3 q2) (rsub q0 q3) = 0 /\ rdot (rsub q0 q3) (rsub q1 q0) = 0.
Proof.
  assert (H : V3 0 0 1 <> V3 0 0 0) by (intros E; injection E; lra).
  split; [exact H|]. split; [exact H|]. exact (make_quad_square _ _ _ _ H H).
Defined.

(** X20: for a finite unit [direct], [world_perp] returns a finite nonzero
    vector orthogonal to [direct]. *)
Theorem world_perp_unit (d : RV) :
  rdot d d = 1 ->
  exists w, world_perp (lift d) = lift w /\ rdot w d = 0 /\ 0 < rdot w w.
Proof.
  intros H. exists (rworld_perp d). rewrite world_perp_lift.
  split; [reflexivity|]. split.
  - rewrite rdot_comm. apply rworld_perp_ortho.
  - apply rworld_perp_pos. exact H.
Qed.

Lemma X20_witness :
  rdot (V3 0 1 0) (V3 0 1 0) = 1 /\
  exists w, world_perp (lift (V3 0 1 0)) = lift w /\ rdot w (V3 0 1 0) = 0 /\ 0 < rdot w w.
Proof.
  assert (H : rdot (V3 0 1 0) (V3 0 1 0) = 1) by (unfold rdot; cbn; ring).
  split; [exact H|]. exact (world_perp_unit _ H).
Defined.

(** X21: the 0.707 threshold of [world_perp] is absolute, not relative to
    the length of [direct]: a short vector along the world X axis,
    [(x, 0, 0)] with [|x| <= 0.707], is crossed with the X axis itself and
    the result is the zero vector. *)
Theorem world_perp_short_x_zero (x : R) :
  Rabs x <= 707 / 1000 -> world_perp (lift (V3 x 0 0)) = lift (V3 0 0 0).
Proof.
  intros H. rewrite world_perp_lift. unfold rworld_perp.
  replace (rdot (V3 x 0 0) (V3 1 0 0)) with x by (unfold rdot; cbn; ring).
  destruct (Rlt_dec (707 / 1000) (Rabs x)); [lra|].
  unfold rcross; cbn. f_equal. f_equal; ring.
Qed.

Lemma X21_witness :
  Rabs (1 / 2) <= 707 / 1000 /\ world_perp (lift (V3 (1 / 2) 0 0)) = lift (V3 0 0 0).
Proof.
  assert (H : Rabs (1 / 2) <= 707 / 1000) by (rewrite Rabs_right; lra).
  split; [exact H|]. exact (world_perp_short_x_zero _ H).
Defined.

Lemma is_valid_norm_lift (v : RV) : is_valid_norm (lift v) = true.
Proof. reflexivity. Qed.

(** X22: with exactly three samples whose finite positions are not
    collinear, [pick_base_plane_norm] returns the unit normal of the
    triangle of the positions; the directions and weights are not used. *)
Theorem pick_three_positions (directs : list Vector3) (a b c : RV)
  (rest : list Point3) (weights : list f32) :
  length directs = 3%nat -> plane_normal a b c <> V3 0 0 0 ->
  pick_base_plane_norm directs (lift a :: lift b :: lift c :: rest) weights =
  Some (Some (lift (rnormalize (plane_normal a b c)))).
Proof.
  intros Hl Hn. pose proof (rdot_self_pos _ Hn) as Hp.
  unfold pick_base_plane_norm. rewrite Hl. cbn [Nat.leb nth_error].
  rewrite norm_lift, normalize_lift by exact Hp.
  rewrite is_valid_norm_lift, normalize_unit by (apply rnormalize_unit; exact Hp).
  reflexivity.
Qed.

Lemma X22_witness :
  length [WORLD_X_AXIS; WORLD_X_AXIS; WORLD_X_AXIS] = 3%nat /\
  plane_normal (V3 0 0 0) (V3 1 0 0) (V3 0 1 0) <> V3 0 0 0 /\
  pick_base_plane_norm [WORLD_X_AXIS; WORLD_X_AXIS; WORLD_X_AXIS]
    [lift (V3 0 0 0); lift (V3 1 0 0); lift (V3 0 1 0)] [] =
  Some (Some (lift (rnormalize (plane_normal (V3 0 0 0) (V3 1 0 0) (V3 0 1 0))))).
Proof.
  assert (H : plane_normal (V3 0 0 0) (V3 1 0 0) (V3 0 1 0) <> V3 0 0 0).
  { unfold plane_normal, rcross, rsub; cbn. intros E. injection E. lra. }
  split; [reflexivity|]. split; [exact H|].
  exact (pick_three_positions [WORLD_X_AXIS; WORLD_X_AXIS; WORLD_X_AXIS] _ _ _ [] [] eq_refl H).
Defined.

(** X23: with exactly two samples whose finite directions satisfy
    [|d0·d1| < 0.966] and are not parallel, [pick_base_plane_norm] returns
    a unit vector orthogonal to both directions; positions and weights are
    not used. *)
Theorem pick_two_directions (d0 d1 : RV) (positions : list Point3) (weights : list f32) :
  Rabs (rdot d0 d1) < 966 / 1000 -> rcross d0 d1 <> V3 0 0 0 ->
  exists n, pick_base_plane_norm [lift d0; lift d1] positions weights = Some (Some (lift n)) /\
    rdot n n = 1 /\ rdot n d0 = 0 /\ rdot n d1 = 0.
Proof.
  intros Hd Hc. pose proof (rdot_self_pos _ Hc) as Hp.
  unfold pick_base_plane_norm. cbn [length Nat.leb nth_error].
  rewrite dot_lift, fabs_Fin. unfold C0966. cbn [flt].
  destruct (Rlt_dec (Rabs (rdot d0 d1)) (966 / 1000)); [|lra].
  rewrite cross_lift, normalize_lift by exact Hp.
  exists (rnormalize (rcross d0 d1)). split; [reflexivity|].
  split; [apply rnormalize_unit; exact Hp|].
  unfold rnormalize. rewrite !rdot_rscale_l, rdot_rcross_l', rdot_rcross_r.
  split; ring.
Qed.

Lemma X23_witness :
  Rabs (rdot (V3 1 0 0) (V3 0 1 0)) < 966 / 1000 /\ rcross (V3 1 0 0) (V3 0 1 0) <> V3 0 0 0 /\
  exists n, pick_base_plane_norm [lift (V3 1 0 0); lift (V3 0 1 0)] [] [] = Some (Some (lift n)) /\
    rdot n n = 1 /\ rdot n (V3 1 0 0) = 0 /\ rdot n (V3 0 1 0) = 0.
Proof.
  assert (H1 : Rabs (rdot (V3 1 0 0) (V3 0 1 0)) < 966 / 1000).
  { unfold rdot; cbn. replace (1 * 0 + 0 * 1 + 0 * 0) with 0 by ring.
    rewrite Rabs_R0. lra. }
  assert (H2 : rcross (V3 1 0 0) (V3 0 1 0) <> V3 0 0 0).
  { unfold rcross; cbn. intros E. injection E. lra. }
  split; [exact H1|]. split; [exact H2|].
  exact (pick_two_directions _ _ [] [] H1 H2).
Defined.

(** X24: with exactly two samples whose finite directions are parallel
    (or zero) but short enough that [|d0·d1| < 0.966], the cross product
    is the zero vector and [pick_base_plane_norm] returns a NaN normal
    rather than no normal. *)
Theorem pick_two_parallel_nan (d0 d1 : RV) (positions : list Point3) (weights : list f32) :
  Rabs (rdot d0 d1) < 966 / 1000 -> rcross d0 d1 = V3 0 0 0 ->
  pick_base_plane_norm [lift d0; lift d1] positions weights = Some (Some (V3 NaN NaN NaN)).
Proof.
  intros Hd Hc.
  unfold pick_base_plane_norm. cbn [length Nat.leb nth_error].
  rewrite dot_lift, fabs_Fin. unfold C0966. cbn [flt].
  destruct (Rlt_dec (Rabs (rdot d0 d1)) (966 / 1000)); [|lra].
  rewrite cross_lift, normalize_lift_zero; [reflexivity|].
  rewrite Hc. unfold rdot; cbn. ring.
Qed.

Lemma X24_witness :
  Rabs (rdot (V3 (1 / 2) 0 0) (V3 (1 / 2) 0 0)) < 966 / 1000 /\
  rcross (V3 (1 / 2) 0 0) (V3 (1 / 2) 0 0) = V3 0 0 0 /\
  pick_base_plane_norm [lift (V3 (1 / 2) 0 0); lift (V3 (1 / 2) 0 0)] [] [] =
    Some (Some (V3 NaN NaN NaN)).
Proof.
  assert (H1 : Rabs (rdot (V3 (1 / 2) 0 0) (V3 (1 / 2) 0 0)) < 966 / 1000)
    by (unfold rdot; cbn; rewrite Rabs_right; lra).
  assert (H2 : rcross (V3 (1 / 2) 0 0) (V3 (1 / 2) 0 0) = V3 0 0 0)
    by (unfold rcross; cbn; f_equal; ring).
  split; [exact H1|]. split; [exact H2|].
  exact (pick_two_parallel_nan _ _ [] [] H1 H2).
Defined.

(** X25: with four or more samples, [pick_base_plane_norm] indexes the
    sorted weights at 0, 1 and 2: fewer than three weights panic. *)
Theorem pick_many_few_weights_panic (directs : list Vector3) (positions : list Point3)
  (weights : list f32) :
  (4 <= length directs)%nat -> (length weights < 3)%nat ->
  pick_base_plane_norm directs positions weights = None.
Proof.
  intros Hd Hw. unfold pick_base_plane_norm.
  destruct (Nat.leb_spec (length directs) 1); [lia|].
  destruct (Nat.leb_spec (length directs) 2); [lia|].
  destruct (Nat.leb_spec (length directs) 3); [lia|].
  cbv zeta.
  assert (H2 : nth_error (sort_desc (weighted_indices_of weights)) 2 = None).
  { apply nth_error_None.
    rewrite (Permutation_length (sort_desc_perm _)), weighted_indices_length. lia. }
  destruct (nth_error (sort_desc (weighted_indices_of weights)) 0); [|reflexivity].
  destruct (nth_error (sort_desc (weighted_indices_of weights)) 1); [|reflexivity].
  rewrite H2. reflexivity.
Qed.

Lemma X25_witness :
  (4 <= length [WORLD_X_AXIS; WORLD_X_AXIS; WORLD_X_AXIS; WORLD_X_AXIS])%nat /\
  (length [Fin 1; Fin 1] < 3)%nat /\
  pick_base_plane_norm [WORLD_X_AXIS; WORLD_X_AXIS; WORLD_X_AXIS; WORLD_X_AXIS] [] [Fin 1; Fin 1]
    = None.
Proof.
  assert (H1 : (4 <= length [WORLD_X_AXIS; WORLD_X_AXIS; WORLD_X_AXIS; WORLD_X_AXIS])%nat)
    by (cbn; lia).
  assert (H2 : (length [Fin 1; Fin 1] < 3)%nat) by (cbn; lia).
  split; [exact H1|]. split; [exact H2|].
  exact (pick_many_few_weights_panic _ _ _ H1 H2).
Defined.

(** X26: [is_two_quads_intersect] never panics when both quads have at
    least three points. *)
Theorem two_quads_no_panic (A B : list Point3) :
  (3 <= length A)%nat -> (3 <= length B)%nat ->
  exists h, is_two_quads_intersect A B = Some h.
Proof.
  intros HA HB. rewrite (is_two_quads_intersect_orb A B HA HB). eexists. reflexivity.
Qed.

Definition x26_quad : list Point3 := [lift (V3 0 0 0); lift (V3 1 0 0); lift (V3 0 1 0)].

Lemma X26_witness :
  (3 <= length x26_quad)%nat /\ exists h, is_two_quads_intersect x26_quad x26_quad = Some h.
Proof.
  assert (H : (3 <= length x26_quad)%nat) by (cbn; lia).
  split; [exact H|]. exact (two_quads_no_panic _ _ H H).
Defined.

(** X27: [is_two_quads_intersect A B] panics when [A] has fewer than three
    points and [B] is not empty: the first edge of [B] is tested against
    [A]. *)
Theorem two_quads_short_first_panic (A B : list Point3) :
  (length A < 3)%nat -> B <> [] -> is_two_quads_intersect A B = None.
Proof.
  intros HA HB. destruct B as [|b0 B']; [contradiction|].
  unfold is_two_quads_intersect. cbn [length seq edge_loop nth_error].
  destruct (nth_error (b0 :: B') ((0 + 1) mod S (length B'))) as [b1|] eqn:E; [|reflexivity].
  destruct A as [|a0 [|a1 [|a2 A']]]; cbn in HA; try lia; reflexivity.
Qed.

Definition x27_quad : list Point3 := [lift (V3 0 0 0)].

Lemma X27_witness :
  (length x27_quad < 3)%nat /\ x27_quad <> [] /\ is_two_quads_intersect x27_quad x27_quad = None.
Proof.
  assert (H1 : (length x27_quad < 3)%nat) by (cbn; lia).
  assert (H2 : x27_quad <> []) by discriminate.
  split; [exact H1|]. split; [exact H2|].
  exact (two_quads_short_first_panic _ _ H1 H2).
Defined.
